(** * Chart-To-Image: the rendering and analytics core

    A shallow embedding of the price-range computation
    ([src/renderer/utils.ts]), the Heikin-Ashi, Renko and VWAP series
    computations ([src/renderer/elements.ts]), the frames handed to the
    drawing layers ([src/renderer/index.ts]), the comparison layout
    ([src/renderer/comparison.ts]) and the grid entry point of the
    comparison service.

    JavaScript numbers are modelled by exact rationals [Q]; the claims
    are about the arithmetic the code writes down, not about rounding.
    Where the source relies on [Infinity] (the spread of an empty array
    into [Math.min]) the model returns [None]. *)

From Stdlib Require Import QArith Qminmax Qabs Qround Lqa.
From Stdlib Require Import ZArith List String Ascii Bool Lia DecimalString.
Import ListNotations.
Open Scope Q_scope.

(* ------------------------------------------------------------------ *)
(** ** Data model *)

(** A candle, as [ChartOHLC]: [volume] is optional. *)
Record candle := mkCandle {
  time : Z;
  open : Q;
  high : Q;
  low : Q;
  close : Q;
  volume : option Q
}.

(** [PriceRange] of [src/renderer/types.ts]. *)
Record PriceRange := mkPriceRange {
  minPrice : Q;
  maxPrice : Q;
  priceRange : Q
}.

(** The [scale] part of [ChartOptions]. *)
Record ScaleOptions := mkScale {
  autoScale : bool;
  scale_x : option Q;
  scale_y : option Q;
  minScale : option Q;
  maxScale : option Q
}.

Definition no_scale : ScaleOptions := mkScale false None None None None.

(** JavaScript truthiness of an optional number: [undefined] and [0] are
    falsy. *)
Definition truthy_num (o : option Q) : bool :=
  match o with
  | Some v => negb (Qeq_bool v 0)
  | None => false
  end.

(** [Math.min(...xs)] and [Math.max(...xs)]: [None] stands for the
    infinities returned on an empty spread. *)
Definition js_min_spread (xs : list Q) : option Q :=
  match xs with
  | [] => None
  | x :: r => Some (fold_left Qmin r x)
  end.

Definition js_max_spread (xs : list Q) : option Q :=
  match xs with
  | [] => None
  | x :: r => Some (fold_left Qmax r x)
  end.

(* ------------------------------------------------------------------ *)
(** ** [calculatePriceRange] *)

Definition prices_of (ohlc : list candle) : list Q :=
  flat_map (fun c => [high c; low c]) ohlc.

(** The centred rescale used for both the [x] and the [y] knob. *)
Definition centred_rescale (k : Q) (mn mx : Q) : Q * Q :=
  let center := (mn + mx) / 2 in
  let r := (mx - mn) * k in
  (center - r / 2, center + r / 2).

Definition calculatePriceRange (ohlc : list candle) (sc : ScaleOptions)
  : option PriceRange :=
  let prices := prices_of ohlc in
  match js_min_spread prices, js_max_spread prices with
  | Some mn0, Some mx0 =>
      let '(mn1, mx1) :=
        if autoScale sc then
          let padding := 5 # 100 in
          let range := mx0 - mn0 in
          (mn0 - range * padding, mx0 + range * padding)
        else (mn0, mx0) in
      let '(mn2, mx2) :=
        match scale_x sc with
        | Some k => if truthy_num (scale_x sc) then centred_rescale k mn1 mx1
                    else (mn1, mx1)
        | None => (mn1, mx1)
        end in
      let '(mn3, mx3) :=
        match scale_y sc with
        | Some k => if truthy_num (scale_y sc) then centred_rescale k mn2 mx2
                    else (mn2, mx2)
        | None => (mn2, mx2)
        end in
      let mn4 := match minScale sc with Some m => Qmax mn3 m | None => mn3 end in
      let mx4 := match maxScale sc with Some m => Qmin mx3 m | None => mx3 end in
      Some (mkPriceRange mn4 mx4 (mx4 - mn4))
  | _, _ => None
  end.

(* ------------------------------------------------------------------ *)
(** ** [HeikinAshiRenderer.calculateHeikinAshi] *)

Definition Qmax3 (a b c : Q) : Q := Qmax (Qmax a b) c.   (* Math.max(a, b, c) *)
Definition Qmin3 (a b c : Q) : Q := Qmin (Qmin a b) c.   (* Math.min(a, b, c) *)

Definition dummy_candle : candle := mkCandle 0 0 0 0 0 None.

(** Body of the loop for an index [i > 0]: [prev] is [ha[i - 1]]. *)
Definition ha_step (prev c : candle) : candle :=
  let haClose := (open c + high c + low c + close c) / 4 in
  let haOpen := (open prev + close prev) / 2 in
  let haHigh := Qmax3 (high c) haOpen haClose in
  let haLow := Qmin3 (low c) haOpen haClose in
  mkCandle (time c) haOpen haHigh haLow haClose (volume c).

(** One iteration of [for (let i = 0; i < ohlc.length; i++)]; the state
    is the index [i] and the array [ha]. *)
Definition ha_iter (st : nat * list candle) (c : candle) : nat * list candle :=
  let '(i, ha) := st in
  if Nat.eqb i 0 then
    (S i, ha ++ [mkCandle (time c) (open c) (high c) (low c) (close c) (volume c)])
  else
    let prev := nth (i - 1) ha dummy_candle in
    (S i, ha ++ [ha_step prev c]).

Definition calculateHeikinAshi (ohlc : list candle) : list candle :=
  snd (fold_left ha_iter ohlc (0%nat, [])).

(* ------------------------------------------------------------------ *)
(** ** [VWAPRenderer.calculateVWAP] *)

Record VWAPData := mkVWAP { vtime : Z; vvalue : Q }.

(** [candle.volume || 0] *)
Definition volume_or_zero (c : candle) : Q :=
  match volume c with
  | Some v => if Qeq_bool v 0 then 0 else v
  | None => 0
  end.

Definition typicalPrice (c : candle) : Q := (high c + low c + close c) / 3.

(** The [forEach] body; the state is
    [(cumulativeVolumePrice, cumulativeVolume, vwapData)]. *)
Definition vwap_iter (st : Q * Q * list VWAPData) (c : candle)
  : Q * Q * list VWAPData :=
  let '(cvp, cv, out) := st in
  let v := volume_or_zero c in
  let tp := typicalPrice c in
  let cvp' := cvp + tp * v in
  let cv' := cv + v in
  let vwap := if Qlt_le_dec 0 cv' then cvp' / cv' else tp in
  (cvp', cv', out ++ [mkVWAP (time c) vwap]).

Definition calculateVWAP (ohlc : list candle) : list VWAPData :=
  match ohlc with
  | [] => []
  | _ => snd (fold_left vwap_iter ohlc (0, 0, []))
  end.

(* ------------------------------------------------------------------ *)
(** ** Drawing surface and dimensions *)

(** The canvas calls the renderers make, as a trace. *)
Inductive DrawCmd :=
  | SetFillStyle (color : string)
  | SetStrokeStyle (color : string)
  | SetLineWidth (w : Q)
  | SetFont (font : string)
  | SetTextAlign (align : string)
  | FillRect (x y w h : Q)
  | StrokeRect (x y w h : Q)
  | FillText (text : string) (x y : Q)
  | BeginPath
  | MoveTo (x y : Q)
  | LineTo (x y : Q)
  | Stroke.

(** [ChartDimensions] *)
Record ChartDimensions := mkDims {
  dwidth : Q;
  dheight : Q;
  margin_top : Q;
  margin_bottom : Q;
  margin_left : Q;
  margin_right : Q;
  chartWidth : Q;
  chartHeight : Q
}.

(** The colour options the primary renderers read
    ([config.customBarColors]) and the axis flags. *)
Record BarColors := mkBarColors {
  bullish : option string;
  bearish : option string;
  wick : option string;
  border : option string
}.

Definition no_colors : BarColors := mkBarColors None None None None.

(** [a || 'default'] on an optional non-empty colour string. *)
Definition or_default (o : option string) (d : string) : string :=
  match o with
  | Some s => if String.eqb s EmptyString then d else s
  | None => d
  end.

(* ------------------------------------------------------------------ *)
(** ** [RenkoRenderer.calculateRenko] and [RenkoRenderer.render] *)

Record RenkoBlock := mkRenko {
  rtime : Z;
  ropen : Q;
  rclose : Q;
  rhigh : Q;
  rlow : Q;
  direction : Z
}.

(** The inner [for (let j = 0; j < blocksNeeded; j++)]; the state is
    [(renko, currentPrice)]. *)
Fixpoint push_blocks (n : nat) (t : Z) (dir : Z) (brickSize : Q)
  (st : list RenkoBlock * Q) : list RenkoBlock * Q :=
  match n with
  | O => st
  | S n' =>
      let '(renko, currentPrice) := st in
      let newPrice := currentPrice + inject_Z dir * brickSize * currentPrice in
      push_blocks n' t dir brickSize
        (renko ++ [mkRenko t currentPrice newPrice
                     (Qmax currentPrice newPrice) (Qmin currentPrice newPrice) dir],
         newPrice)
  end.

(** Body of the outer loop, for one candle of index [i >= 1]. Where the
    source divides by zero with a price change ([currentPrice = 0], or
    [brickSize = 0]), [blocksNeeded] is [Infinity] and its inner loop
    never ends; Q's division by [0] gives [0] and the model pushes no
    brick there. *)
Definition renko_iter (brickSize : Q) (st : list RenkoBlock * Q) (c : candle)
  : list RenkoBlock * Q :=
  let '(_, currentPrice) := st in
  let priceChange := close c - currentPrice in
  let priceChangePercent := Qabs (priceChange / currentPrice) in
  if Qle_bool brickSize priceChangePercent then
    let blocksNeeded := Qfloor (priceChangePercent / brickSize) in
    let dir := if Qle_bool priceChange 0 then (-1)%Z else 1%Z in
    push_blocks (Z.to_nat blocksNeeded) (time c) dir brickSize st
  else st.

(** [ohlc[0].close] throws on an empty array: [None]. *)
Definition calculateRenko (ohlc : list candle) (brickSize : Q)
  : option (list RenkoBlock) :=
  match ohlc with
  | [] => None
  | c0 :: rest => Some (fst (fold_left (renko_iter brickSize) rest ([], close c0)))
  end.

(** The frame the Renko renderer draws in, from the block extremes. *)
Definition renko_frame (renkoData : list RenkoBlock) : option PriceRange :=
  let prices := flat_map (fun b => [rhigh b; rlow b]) renkoData in
  match js_min_spread prices, js_max_spread prices with
  | Some mn, Some mx => Some (mkPriceRange mn mx (mx - mn))
  | _, _ => None
  end.

Definition renko_block_cmds (dims : ChartDimensions) (colors : BarColors)
  (fr : PriceRange) (n : nat) (index : nat) (block : RenkoBlock) : list DrawCmd :=
  let blockWidth := Qmax 10 ((chartWidth dims / inject_Z (Z.of_nat n)) * (9 # 10)) in
  let spacing := chartWidth dims / inject_Z (Z.of_nat n) in
  let x := margin_left dims + inject_Z (Z.of_nat index) * spacing + spacing / 2 in
  let openY := margin_top dims
               + ((maxPrice fr - ropen block) / priceRange fr) * chartHeight dims in
  let closeY := margin_top dims
                + ((maxPrice fr - rclose block) / priceRange fr) * chartHeight dims in
  let isUp := (0 <? direction block)%Z in
  let color := if isUp then or_default (bullish colors) "#26a69a"
               else or_default (bearish colors) "#ef5350" in
  let blockHeight := Qmax 1 (Qabs (closeY - openY)) in
  let blockY := Qmin openY closeY in
  [SetFillStyle color; FillRect (x - blockWidth / 2) blockY blockWidth blockHeight]
  ++ (if isUp then []
      else [SetStrokeStyle color; SetLineWidth 2;
            StrokeRect (x - blockWidth / 2) blockY blockWidth blockHeight]).

Fixpoint mapi_from {A B : Type} (f : nat -> A -> B) (i : nat) (l : list A) : list B :=
  match l with
  | [] => []
  | a :: r => f i a :: mapi_from f (S i) r
  end.

(** [RenkoRenderer.render]; [None] when it throws. *)
Definition renko_render (dims : ChartDimensions) (colors : BarColors)
  (candles : list candle) : option (list DrawCmd) :=
  match calculateRenko candles (2 # 100) with
  | None => None
  | Some [] => Some []
  | Some renkoData =>
      match renko_frame renkoData with
      | None => Some []
      | Some fr =>
          Some (List.concat (mapi_from
                  (renko_block_cmds dims colors fr (List.length renkoData)) 0 renkoData))
      end
  end.

(* ------------------------------------------------------------------ *)
(** ** The frame of [HeikinAshiRenderer.render] *)

(** The frame [HeikinAshiRenderer.render] recomputes from the smoothed
    values ([minPrice], [maxPriceHA], [priceRangeHA]). *)
Definition ha_frame (haData : list candle) : option PriceRange :=
  let prices := prices_of haData in
  match js_min_spread prices, js_max_spread prices with
  | Some mn, Some mx => Some (mkPriceRange mn mx (mx - mn))
  | _, _ => None
  end.

(* ------------------------------------------------------------------ *)
(** ** [ComparisonRenderer.calculatePosition] and [addChart] *)

Inductive LayoutType := SideBySide | Grid.

Record ComparisonLayout := mkLayout {
  ltype : LayoutType;
  lcolumns : option Q;
  lgap : option Q
}.

Record Position := mkPos { px : Q; py : Q; pw : Q; ph : Q }.

(** [o || d] on an optional number. *)
Definition num_or (o : option Q) (d : Q) : Q :=
  if truthy_num o then match o with Some v => v | None => d end else d.

Definition inject_nat (n : nat) : Q := inject_Z (Z.of_nat n).

(** [calculatePosition(index, totalCharts)] with [chartsLength] the
    current [this.charts.length]. The grid column [index % columns] is
    written [index - floor(index / columns) * columns], which is JS's
    [%] for a positive [columns]; it differs for a negative one. *)
Definition calculatePosition (layout : ComparisonLayout) (width height : Q)
  (chartsLength : nat) (index : nat) (totalCharts : option nat) : Position :=
  let gap := num_or (lgap layout) 10 in
  match ltype layout with
  | SideBySide =>
      let chartWidth := (width - gap) / inject_nat (Nat.max chartsLength 2) in
      mkPos (inject_nat index * (chartWidth + gap)) 0 chartWidth height
  | Grid =>
      let total := match totalCharts with
                   | Some (S _ as t) => t
                   | _ => chartsLength
                   end in
      let maxCharts := inject_nat (Nat.min total 2) in
      let columns := Qmin (num_or (lcolumns layout) 2) 2 in
      let rows := inject_Z (Qceiling (maxCharts / columns)) in
      let chartWidth := (width - (columns - 1) * gap) / columns in
      let chartHeight := (height - (rows - 1) * gap) / rows in
      let row := inject_Z (Qfloor (inject_nat index / columns)) in
      let col := inject_nat index - row * columns in
      mkPos (col * (chartWidth + gap)) (row * (chartHeight + gap)) chartWidth chartHeight
  end.

(** [addChart(chartData)] without an explicit position; the chart data
    itself plays no part in the layout, so the state is the list of the
    positions of the charts added so far. *)
Definition addChart (layout : ComparisonLayout) (width height : Q)
  (charts : list Position) : list Position :=
  let n := List.length charts in
  charts ++ [calculatePosition layout width height n n (Some (S n))].

(** [k] successive [addChart] calls, as the comparison service makes
    them, one per fetched symbol or timeframe. *)
Fixpoint addCharts (layout : ComparisonLayout) (width height : Q) (k : nat)
  (charts : list Position) : list Position :=
  match k with
  | O => charts
  | S k' => addCharts layout width height k' (addChart layout width height charts)
  end.

(* ------------------------------------------------------------------ *)
(** ** [ComparisonService.grid] *)

Definition string_of_Z (z : Z) : string := DecimalString.NilZero.string_of_int (Z.to_int z).
Definition string_of_nat (n : nat) : string := string_of_Z (Z.of_nat n).

(** [ComparisonResult], without the image buffer. *)
Record ComparisonResult := mkResult {
  success : bool;
  result_outputPath : option string;
  result_error : option string
}.

Record ComparisonConfig := mkCompConfig {
  cfg_symbols : list string;
  cfg_outputPath : string;
  cfg_layout : ComparisonLayout
}.

(** The optional [config] spread last into the service configuration. *)
Record ConfigOverride := mkOverride {
  ov_symbols : option (list string);
  ov_outputPath : option string;
  ov_layout : option ComparisonLayout
}.

Definition no_override : ConfigOverride := mkOverride None None None.

Definition override {A} (o : option A) (d : A) : A :=
  match o with Some a => a | None => d end.

(** What [grid] does: either it returns a result at once, or it builds a
    [ComparisonService] and awaits [generateComparison()], which fetches
    and renders. *)
Inductive GridOutcome :=
  | GridReturns (r : ComparisonResult)
  | GridGenerates (cfg : ComparisonConfig).

Definition grid (symbols : list string) (columns : Z) (outputPath : string)
  (config : ConfigOverride) : GridOutcome :=
  if Nat.ltb 2 (List.length symbols) then
    GridReturns (mkResult false None
      (Some ("Grid layout supports maximum 2 symbols. Got "
             ++ string_of_nat (List.length symbols) ++ " symbols: "
             ++ String.concat ", " symbols)%string))
  else if Z.ltb 2 columns then
    GridReturns (mkResult false None
      (Some ("Grid layout supports maximum 2 columns. Got "
             ++ string_of_Z columns ++ " columns")%string))
  else
    GridGenerates (mkCompConfig
      (override (ov_symbols config) symbols)
      (override (ov_outputPath config) outputPath)
      (override (ov_layout config) (mkLayout Grid (Some (inject_Z columns)) (Some 15)))).

(* ------------------------------------------------------------------ *)
(** ** [formatTime] and [AxesRenderer.drawTimeLabels] *)

(** The wall clock [new Date()] reads, and the local time zone as
    [getTimezoneOffset()] reports it (minutes, UTC minus local). *)
Record Clock := mkClock { now_ms : Z; tz_offset_min : Z }.

Definition ms_per_day : Z := 86400000.

Definition local_ms (k : Clock) (t : Z) : Z := (t - tz_offset_min k * 60000)%Z.

(** Days since 1970-01-01 in local time. *)
Definition local_day (k : Clock) (t : Z) : Z := Z.div (local_ms k t) ms_per_day.

(** Month and day of month of a day count since 1970-01-01 (the
    proleptic Gregorian calendar, as [Date] uses). *)
Definition civil_month_day (days : Z) : Z * Z :=
  let z := (days + 719468)%Z in
  let era := Z.div z 146097 in
  let doe := (z - era * 146097)%Z in
  let yoe := Z.div (doe - Z.div doe 1460 + Z.div doe 36524 - Z.div doe 146096) 365 in
  let doy := (doe - (365 * yoe + Z.div yoe 4 - Z.div yoe 100))%Z in
  let mp := Z.div (5 * doy + 2) 153 in
  let d := (doy - Z.div (153 * mp + 2) 5 + 1)%Z in
  let m := if (mp <? 10)%Z then (mp + 3)%Z else (mp - 9)%Z in
  (m, d).

Definition month_short (m : Z) : string :=
  nth (Z.to_nat (m - 1))
    ["Jan"; "Feb"; "Mar"; "Apr"; "May"; "Jun";
     "Jul"; "Aug"; "Sep"; "Oct"; "Nov"; "Dec"]%string EmptyString.

Definition pad2 (n : Z) : string :=
  if (n <? 10)%Z then ("0" ++ string_of_Z n)%string else string_of_Z n.

(** [formatTime(timestamp)]: ["HH:MM"] for a timestamp on today's local
    date ([toDateString] equal), ["Mon D, HH:MM"] otherwise (the en-US
    forms with [hour12: false]). *)
Definition formatTime (k : Clock) (timestamp : Z) : string :=
  let ms := local_ms k timestamp in
  let hh := Z.div (Z.modulo ms ms_per_day) 3600000 in
  let mm := Z.div (Z.modulo ms 3600000) 60000 in
  let hhmm := (pad2 hh ++ ":" ++ pad2 mm)%string in
  if Z.eqb (local_day k timestamp) (local_day k (now_ms k)) then hhmm
  else
    let '(m, d) := civil_month_day (local_day k timestamp) in
    (month_short m ++ " " ++ string_of_Z d ++ ", " ++ hhmm)%string.

(** The indices [0, step, 2 step, ...] below [n] visited by
    [for (let i = 0; i < ohlc.length; i += step)]. *)
Fixpoint step_indices (fuel : nat) (i step n : nat) : list nat :=
  match fuel with
  | O => []
  | S f => if Nat.ltb i n then i :: step_indices f (i + step) step n else []
  end.

(** One label of the time axis. For a single candle the source's [x]
    is [margin.left + (0 / 0) * chartWidth], [NaN]; Q's division by [0]
    gives [0], and the model puts that label at [margin.left]. *)
Definition time_label_cmds (k : Clock) (dims : ChartDimensions)
  (gridColor : option string) (ohlc : list candle) (i : nat) : list DrawCmd :=
  let n := List.length ohlc in
  let c := nth i ohlc dummy_candle in
  let x := margin_left dims + (inject_nat i / (inject_nat n - 1)) * chartWidth dims in
  let y := margin_top dims + chartHeight dims + 20 in
  [FillText (formatTime k (time c)) x y;
   SetStrokeStyle (or_default gridColor "#2b2b43");
   SetLineWidth (1 # 2);
   BeginPath;
   MoveTo x (margin_top dims + chartHeight dims);
   LineTo x (margin_top dims + chartHeight dims + 5);
   Stroke].

Definition drawTimeLabels (k : Clock) (dims : ChartDimensions)
  (textColor gridColor : option string) (showTimeAxis : option bool)
  (ohlc : list candle) : list DrawCmd :=
  match ohlc with
  | [] => []
  | _ =>
      match showTimeAxis with
      | Some false => []
      | _ =>
          let n := List.length ohlc in
          let step := Nat.max 1 (Nat.div n 6) in
          [SetFillStyle (or_default textColor "#ffffff");
           SetFont "11px Arial"; SetTextAlign "center"]
          ++ List.concat (map (time_label_cmds k dims gridColor ohlc)
                              (step_indices n 0 step n))
      end
  end.

(* ------------------------------------------------------------------ *)
(** ** Sample inputs *)

Definition candle_a : candle := mkCandle 1700000000000 100 100 100 100 None.
Definition candle_b : candle := mkCandle 1700003600000 110 120 90 110 (Some 5).
Definition candle_c : candle := mkCandle 1700007200000 105 108 95 100 (Some 0).

Definition autoscale_x2 : ScaleOptions := mkScale true (Some 2) None None None.
Definition autoscale_x2_y3 : ScaleOptions := mkScale true (Some 2) (Some 3) None None.

Definition candle_flat : candle := mkCandle 1700003600000 99 101 98 100 (Some 3).

Definition clock_same_day : Clock := mkClock 1700000000000 0.
Definition clock_next_day : Clock := mkClock (1700000000000 + ms_per_day) 0.

Definition dummy_pos : Position := mkPos 0 0 0 0.

Definition dims_800x600 : ChartDimensions := mkDims 800 600 60 40 60 40 700 500.

(* ------------------------------------------------------------------ *)
(** ** Running sums of the VWAP statement *)

Definition sumQ (xs : list Q) : Q := fold_right Qplus 0 xs.

(** [Σ volume] and [Σ volume × typicalPrice] over candles [0..i]. *)
Definition running_volume (ohlc : list candle) (i : nat) : Q :=
  sumQ (map volume_or_zero (firstn (S i) ohlc)).

Definition running_volume_price (ohlc : list candle) (i : nat) : Q :=
  sumQ (map (fun c => typicalPrice c * volume_or_zero c) (firstn (S i) ohlc)).

(** The quotient the VWAP statement gives for point [i], with no fallback. *)
Definition vwap_ratio (ohlc : list candle) (i : nat) : Q :=
  running_volume_price ohlc i / running_volume ohlc i.

Definition dummy_vwap : VWAPData := mkVWAP 0 0.

(* ------------------------------------------------------------------ *)
(** ** Canvas state beyond paths and fills *)

(** The line-dash and transparency setters the levels, overlay and
    watermark renderers call, beside the [DrawCmd]s. *)
Inductive CanvasCmd :=
  | Draw (c : DrawCmd)
  | SetLineDash (segments : list Q)
  | SetGlobalAlpha (alpha : Q).

(** [DEFAULT_FONT] of [elements.ts]. *)
Definition DEFAULT_FONT : string := "12px Arial".

(** A path point lies in the plot rectangle. *)
Definition in_plot (dims : ChartDimensions) (cmd : DrawCmd) : Prop :=
  match cmd with
  | MoveTo x y | LineTo x y =>
      margin_left dims <= x <= margin_left dims + chartWidth dims /\
      margin_top dims <= y <= margin_top dims + chartHeight dims
  | _ => True
  end.

(* ------------------------------------------------------------------ *)
(** ** [hasVolumeData] *)

Definition hasVolumeData (ohlc : list candle) : bool :=
  existsb (fun c => match volume c with
                    | Some v => negb (Qle_bool v 0)     (* v > 0 *)
                    | None => false
                    end) ohlc.

(* ------------------------------------------------------------------ *)
(** ** [EMARenderer.calculateEMA] and [SMARenderer.calculateSMA]

    Periods are modelled as natural numbers. [EMAData] and [SMAData]
    have the shape of [VWAPData] ([time], [value]). *)

(** The [forEach] body; the state is [(index, ema, emaData)]. *)
Definition ema_iter (multiplier : Q) (st : nat * Q * list VWAPData) (c : candle)
  : nat * Q * list VWAPData :=
  let '(index, ema, emaData) := st in
  let ema' := if Nat.eqb index 0 then close c
              else (close c - ema) * multiplier + ema in
  (S index, ema', emaData ++ [mkVWAP (time c) ema']).

Definition calculateEMA (period : nat) (ohlc : list candle) : list VWAPData :=
  match ohlc with
  | [] => []
  | c0 :: _ =>
      let multiplier := 2 / (inject_nat period + 1) in
      let '(_, _, emaData) := fold_left (ema_iter multiplier) ohlc (0%nat, close c0, []) in
      emaData
  end.

(** The inner loop [for (let j = i - period + 1; j <= i; j++)]. *)
Definition sma_window_sum (ohlc : list candle) (period i : nat) : Q :=
  fold_left (fun sum j => sum + close (nth j ohlc dummy_candle))
            (seq (i + 1 - period) period) 0.

(** [SMARenderer.calculateSMA] for a whole-number [period].
    [None]: with [period = 0] the outer loop starts at [i = -1] and
    [ohlc[-1].time] throws. (The source's [period: number] may also be
    negative or fractional; the index [period - 1] is then not an array
    index and the code throws too, unless the series is shorter than
    [period]. Those periods are outside this model.) *)
Definition calculateSMA (period : nat) (ohlc : list candle) : option (list VWAPData) :=
  if Nat.ltb (List.length ohlc) period then Some []
  else
    match period with
    | O => None
    | S _ =>
        Some (map (fun i => mkVWAP (time (nth i ohlc dummy_candle))
                                   (sma_window_sum ohlc period i / inject_nat period))
                  (seq (period - 1) (List.length ohlc - period + 1)))
    end.

(* ------------------------------------------------------------------ *)
(** ** The overlay lines: [VWAPRenderer], [EMARenderer], [SMARenderer] *)

(** [ohlc.findIndex(candle => candle.time === t)]; [None] for [-1]. *)
Fixpoint findIndex_time (ohlc : list candle) (t : Z) : option nat :=
  match ohlc with
  | [] => None
  | c :: r => if Z.eqb (time c) t then Some 0%nat else option_map S (findIndex_time r t)
  end.

(** The [forEach] body the three [render] methods share. *)
Definition overlay_point_cmds (dims : ChartDimensions) (pr : PriceRange)
  (ohlc : list candle) (point : VWAPData) : list DrawCmd :=
  let spacing := chartWidth dims / inject_nat (List.length ohlc) in
  match findIndex_time ohlc (vtime point) with
  | None => []
  | Some originalIndex =>
      let x := margin_left dims + inject_nat originalIndex * spacing + spacing / 2 in
      let y := margin_top dims
               + ((maxPrice pr - vvalue point) / priceRange pr) * chartHeight dims in
      if Nat.eqb originalIndex 0 then [MoveTo x y] else [LineTo x y]
  end.

(** The rest of the three [render] methods once the series is computed;
    they differ in colour, dash, label and label offset. *)
Definition overlay_render (dims : ChartDimensions) (pr : PriceRange)
  (ohlc : list candle) (color : string) (dash : list Q) (label : string)
  (labelDy : Q) (points : list VWAPData) : list CanvasCmd :=
  match points with
  | [] => []
  | _ =>
      [Draw (SetStrokeStyle color); Draw (SetLineWidth 2); SetLineDash dash; Draw BeginPath]
      ++ map Draw (List.concat (map (overlay_point_cmds dims pr ohlc) points))
      ++ [Draw Stroke; Draw (SetFillStyle color); Draw (SetFont DEFAULT_FONT);
          Draw (SetTextAlign "left");
          Draw (FillText label (margin_left dims + 5) (margin_top dims + labelDy))]
  end.

Definition vwap_render (dims : ChartDimensions) (pr : PriceRange) (colors : BarColors)
  (ohlc : list candle) : list CanvasCmd :=
  overlay_render dims pr ohlc (or_default (bullish colors) "#ff6b6b") [5; 5] "VWAP" 20
    (calculateVWAP ohlc).

Definition ema_render (dims : ChartDimensions) (pr : PriceRange) (colors : BarColors)
  (period : nat) (ohlc : list candle) : list CanvasCmd :=
  overlay_render dims pr ohlc (or_default (bearish colors) "#ff6b6b") []
    ("EMA(" ++ string_of_nat period ++ ")") 20 (calculateEMA period ohlc).

Definition sma_render (dims : ChartDimensions) (pr : PriceRange) (colors : BarColors)
  (period : nat) (ohlc : list candle) : option (list CanvasCmd) :=
  match calculateSMA period ohlc with
  | None => None
  | Some smaData =>
      Some (overlay_render dims pr ohlc (or_default (bullish colors) "#4ecdc4") []
              ("SMA(" ++ string_of_nat period ++ ")") 40 smaData)
  end.

(* ------------------------------------------------------------------ *)
(** ** [GridRenderer.render] *)

Definition grid_render (dims : ChartDimensions) (gridColor : option string)
  (showGrid : option bool) : list DrawCmd :=
  match showGrid with
  | Some false => []
  | _ =>
      [SetStrokeStyle (or_default gridColor "#2b2b43"); SetLineWidth (1 # 2)]
      ++ List.concat (map (fun i =>
           let x := margin_left dims + (inject_nat i / 10) * chartWidth dims in
           [BeginPath; MoveTo x (margin_top dims);
            LineTo x (margin_top dims + chartHeight dims); Stroke]) (seq 0 11))
      ++ List.concat (map (fun i =>
           let y := margin_top dims + (inject_nat i / 5) * chartHeight dims in
           [BeginPath; MoveTo (margin_left dims) y;
            LineTo (margin_left dims + chartWidth dims) y; Stroke]) (seq 0 6))
  end.

(* ------------------------------------------------------------------ *)
(** ** [formatPrice] and [AxesRenderer.drawPriceLabels] *)

Fixpoint zeros (n : nat) : string :=
  match n with
  | O => EmptyString
  | S k => String "0" (zeros k)
  end.

(** [x.toFixed(f)] for [|x| < 10^21] (above, [toFixed] falls back to
    the exponent form of [ToString], not modelled): the integer [n]
    nearest to [|x| * 10^f], the larger one on a tie, written with [f]
    digits after the point, and a ["-"] when [x < 0]. *)
Definition toFixed (x : Q) (f : nat) : string :=
  let s := if Qlt_le_dec x 0 then "-"%string else EmptyString in
  let n := Qfloor (Qabs x * inject_Z (10 ^ Z.of_nat f) + (1 # 2)) in
  let m := string_of_Z n in
  let m :=
    if Nat.eqb f 0 then m
    else
      let m := if Nat.leb (String.length m) f
               then (zeros (f + 1 - String.length m) ++ m)%string else m in
      let k := String.length m in
      (substring 0 (k - f) m ++ "." ++ substring (k - f) f m)%string in
  (s ++ m)%string.

Definition formatPrice (price : Q) : string :=
  if Qle_bool 1000 price then toFixed price 0
  else if Qle_bool 100 price then toFixed price 1
  else if Qle_bool 10 price then toFixed price 2
  else toFixed price 4.

(** One iteration of [for (let i = 0; i <= numLabels; i++)]. *)
Definition price_label_cmds (dims : ChartDimensions) (pr : PriceRange)
  (gridColor : option string) (i : nat) : list DrawCmd :=
  let price := minPrice pr + (inject_nat i / 5) * priceRange pr in
  let y := margin_top dims + ((maxPrice pr - price) / priceRange pr) * chartHeight dims in
  [FillText (formatPrice price) (margin_left dims - 10) (y + 4);
   SetStrokeStyle (or_default gridColor "#2b2b43"); SetLineWidth (1 # 2); BeginPath;
   MoveTo (margin_left dims - 5) y; LineTo (margin_left dims) y; Stroke].

Definition drawPriceLabels (dims : ChartDimensions) (pr : PriceRange)
  (textColor gridColor : option string) : list DrawCmd :=
  [SetFillStyle (or_default textColor "#ffffff"); SetFont DEFAULT_FONT; SetTextAlign "right"]
  ++ List.concat (map (price_label_cmds dims pr gridColor) (seq 0 6)).

(** [AxesRenderer.render]: the two axis lines, then the labels. *)
Definition axes_render (k : Clock) (dims : ChartDimensions) (pr : PriceRange)
  (borderColor textColor gridColor : option string) (showTimeAxis : option bool)
  (ohlc : list candle) : list DrawCmd :=
  [SetStrokeStyle (or_default borderColor "#2b2b43"); SetLineWidth 1; BeginPath;
   MoveTo (margin_left dims) (margin_top dims);
   LineTo (margin_left dims) (margin_top dims + chartHeight dims); Stroke;
   BeginPath; MoveTo (margin_left dims) (margin_top dims + chartHeight dims);
   LineTo (margin_left dims + chartWidth dims) (margin_top dims + chartHeight dims); Stroke]
  ++ drawPriceLabels dims pr textColor gridColor
  ++ drawTimeLabels k dims textColor gridColor showTimeAxis ohlc.

(* ------------------------------------------------------------------ *)
(** ** [LevelsRenderer], [TitleRenderer] and [WatermarkRenderer] *)

Inductive LineStyle := Solid | Dotted.

(** [HorizontalLevel] (its [type] tag plays no part in drawing). *)
Record HorizontalLevel := mkLevel {
  lvalue : Q;
  lcolor : string;
  lineStyle : LineStyle;
  llabel : option string
}.

Definition level_cmds (dims : ChartDimensions) (pr : PriceRange)
  (level : HorizontalLevel) : list CanvasCmd :=
  let y := margin_top dims + ((maxPrice pr - lvalue level) / priceRange pr) * chartHeight dims in
  [Draw (SetStrokeStyle (lcolor level)); Draw (SetLineWidth 1);
   SetLineDash (match lineStyle level with Dotted => [5; 5] | Solid => [] end);
   Draw BeginPath; Draw (MoveTo (margin_left dims) y);
   Draw (LineTo (dwidth dims - margin_right dims) y); Draw Stroke; SetLineDash []]
  ++ match llabel level with
     | Some l =>
         if String.eqb l EmptyString then []
         else [Draw (SetFillStyle (lcolor level)); Draw (SetFont DEFAULT_FONT);
               Draw (SetTextAlign "right");
               Draw (FillText l (margin_left dims - 10) (y - 5))]
     | None => []
     end.

Definition levels_render (dims : ChartDimensions) (pr : PriceRange)
  (levels : list HorizontalLevel) : list CanvasCmd :=
  List.concat (map (level_cmds dims pr) levels).

Definition title_render (width : Q) (textColor : option string) (showTitle : option bool)
  (title : string) : list DrawCmd :=
  match showTitle with
  | Some false => []
  | _ => [SetFillStyle (or_default textColor "#ffffff"); SetFont "bold 16px Arial";
          SetTextAlign "center"; FillText title (width / 2) 30]
  end.

(** The positions [WatermarkConfig] admits. *)
Inductive WatermarkPosition :=
  | WTop | WCenter | WBottom | WTopLeft | WTopRight | WBottomLeft | WBottomRight.

(** [WatermarkConfig]; font sizes are modelled as integers. *)
Record WatermarkConfig := mkWatermark {
  wtext : string;
  wposition : option WatermarkPosition;
  wcolor : option string;
  wfontSize : option Z;
  wopacity : option Q
}.

(** [string | WatermarkConfig] *)
Inductive Watermark :=
  | WmString (s : string)
  | WmConfig (c : WatermarkConfig).

Definition watermark_render (width height : Q) (watermark : Watermark) : list CanvasCmd :=
  let '(text, position, color, fontSize, opacity) :=
    match watermark with
    | WmString s => (s, WBottomRight, "#ffffff"%string, 12%Z, 3 # 10)
    | WmConfig c =>
        (wtext c, override (wposition c) WBottomRight, or_default (wcolor c) "#ffffff",
         match wfontSize c with
         | Some z => if Z.eqb z 0 then 12%Z else z
         | None => 12%Z
         end,
         num_or (wopacity c) (3 # 10))
    end in
  let '(x, y, align) :=
    match position with
    | WTopLeft => (20, 20, "left"%string)
    | WTopRight => (width - 20, 20, "right"%string)
    | WBottomLeft => (20, height - 20, "left"%string)
    | WCenter => (width / 2, height / 2, "center"%string)
    | _ => (width - 20, height - 20, "right"%string)   (* 'bottom-right' and default *)
    end in
  [SetGlobalAlpha opacity; Draw (SetFillStyle color);
   Draw (SetFont (string_of_Z fontSize ++ "px Arial")); Draw (SetTextAlign align);
   Draw (FillText text x y); SetGlobalAlpha 1].

(* ------------------------------------------------------------------ *)
(** ** Margins: [NodeChartRenderer.drawChart] and [ComparisonRenderer.adjustMargins] *)

Record Margin := mkMargin {
  mtop : option Q;
  mbottom : option Q;
  mleft : option Q;
  mright : option Q
}.

Definition default_margin : Margin := mkMargin (Some 60) (Some 40) (Some 60) (Some 40).

(** The [dimensions] [drawChart] builds from [config.margin]. *)
Definition drawChart_dims (width height : Q) (m : option Margin) : ChartDimensions :=
  let margin := override m default_margin in
  let chartWidth := width - num_or (mleft margin) 0 - num_or (mright margin) 0 in
  let chartHeight := height - num_or (mtop margin) 0 - num_or (mbottom margin) 0 in
  mkDims width height (num_or (mtop margin) 0) (num_or (mbottom margin) 0)
    (num_or (mleft margin) 0) (num_or (mright margin) 0) chartWidth chartHeight.

Definition adjustMargins (originalMargin : option Margin) (width height : Q) : Margin :=
  let scale := Qmin (width / 800) (height / 600) in
  let margin := override originalMargin default_margin in
  mkMargin (Some (Qmax (num_or (mtop margin) 60 * scale) 20))
           (Some (Qmax (num_or (mbottom margin) 40 * scale) 15))
           (Some (Qmax (num_or (mleft margin) 60 * scale) 20))
           (Some (Qmax (num_or (mright margin) 40 * scale) 15)).

(** The dimensions a chart of a comparison is drawn with
    ([renderChartInPosition] then [drawChart]). *)
Definition chart_in_position_dims (pos : Position) (dataMargin : option Margin)
  : ChartDimensions :=
  drawChart_dims (pw pos) (ph pos) (Some (adjustMargins dataMargin (pw pos) (ph pos))).

(* ------------------------------------------------------------------ *)
(** ** [VolumeRenderer], [CandlestickRenderer] and [LineRenderer] *)

Definition volume_bar_cmds (dims : ChartDimensions) (colors : BarColors)
  (maxVolume : Q) (n index : nat) (c : candle) : list DrawCmd :=
  let volumeHeight := chartHeight dims * (2 # 10) in
  let volumeY := margin_top dims + chartHeight dims + 10 in
  let barWidth := Qmax 1 ((chartWidth dims / inject_nat n) * (8 # 10)) in
  let spacing := chartWidth dims / inject_nat n in
  let volumeBarHeight := (volume_or_zero c / maxVolume) * volumeHeight in
  let x := margin_left dims + inject_nat index * spacing + spacing / 2 in
  let y := volumeY + volumeHeight - volumeBarHeight in
  let color := if Qle_bool (open c) (close c)
               then (or_default (bullish colors) "#26a69a" ++ "80")%string
               else (or_default (bearish colors) "#ef5350" ++ "80")%string in
  [SetFillStyle color; FillRect (x - barWidth / 2) y barWidth volumeBarHeight].

(** [Math.max()] of no volumes is [-Infinity], and the [forEach] then
    draws nothing. *)
Definition volume_render (dims : ChartDimensions) (colors : BarColors)
  (ohlc : list candle) : list DrawCmd :=
  match js_max_spread (map volume_or_zero ohlc) with
  | None => []
  | Some maxVolume =>
      List.concat (mapi_from (volume_bar_cmds dims colors maxVolume (List.length ohlc)) 0 ohlc)
  end.

(** The vertical position of a price in a frame. *)
Definition price_y (dims : ChartDimensions) (pr : PriceRange) (p : Q) : Q :=
  margin_top dims + ((maxPrice pr - p) / priceRange pr) * chartHeight dims.

Definition candle_cmds (dims : ChartDimensions) (pr : PriceRange) (colors : BarColors)
  (n index : nat) (c : candle) : list DrawCmd :=
  let candleWidth := Qmax 1 ((chartWidth dims / inject_nat n) * (8 # 10)) in
  let spacing := chartWidth dims / inject_nat n in
  let x := margin_left dims + inject_nat index * spacing + spacing / 2 in
  let openY := price_y dims pr (open c) in
  let closeY := price_y dims pr (close c) in
  let highY := price_y dims pr (high c) in
  let lowY := price_y dims pr (low c) in
  let color := if Qle_bool (open c) (close c)
               then or_default (bullish colors) "#26a69a"
               else or_default (bearish colors) "#ef5350" in
  let bodyHeight := Qmax 1 (Qabs (closeY - openY)) in
  let bodyY := Qmin openY closeY in
  [SetStrokeStyle (or_default (wick colors) "#424242"); SetLineWidth 1; BeginPath;
   MoveTo x highY; LineTo x lowY; Stroke;
   SetFillStyle color; FillRect (x - candleWidth / 2) bodyY candleWidth bodyHeight]
  ++ match border colors with
     | Some b =>
         if String.eqb b EmptyString then []
         else [SetStrokeStyle b; SetLineWidth 1;
               StrokeRect (x - candleWidth / 2) bodyY candleWidth bodyHeight]
     | None => []
     end.

Definition candlestick_render (dims : ChartDimensions) (pr : PriceRange)
  (colors : BarColors) (candles : list candle) : list DrawCmd :=
  List.concat (mapi_from (candle_cmds dims pr colors (List.length candles)) 0 candles).

(** The [forEach] body of [LineRenderer.render]. *)
Definition line_point_cmd (dims : ChartDimensions) (pr : PriceRange) (spacing : Q)
  (index : nat) (c : candle) : DrawCmd :=
  let x := margin_left dims + inject_nat index * spacing in
  let y := price_y dims pr (close c) in
  if Nat.eqb index 0 then MoveTo x y else LineTo x y.

(** For a single candle the source divides by [0] ([x] is [NaN]); the
    model is meant for two candles or more. *)
Definition line_render (dims : ChartDimensions) (pr : PriceRange) (colors : BarColors)
  (candles : list candle) : list DrawCmd :=
  let spacing := chartWidth dims / (inject_nat (List.length candles) - 1) in
  [SetStrokeStyle (or_default (bullish colors) "#26a69a"); SetLineWidth 2; BeginPath]
  ++ mapi_from (line_point_cmd dims pr spacing) 0 candles ++ [Stroke].

(* ------------------------------------------------------------------ *)
(** ** [ComparisonService]: which charts are added *)

(** Whether [generateChartData(symbol, timeframe)] returns chart data
    (it returns [null] when rendering or fetching fails); the exchange
    is outside the model. *)
Definition ChartFetch := string -> option string -> bool.

(** The charts added, as [(symbol, timeframe)] in order. *)
Definition addTimeframeCharts (fetchOk : ChartFetch) (timeframes symbols : list string)
  : list (string * option string) :=
  let symbol := hd EmptyString symbols in
  let maxCharts := Nat.min (List.length symbols) (List.length timeframes) in
  fold_left (fun charts i =>
      let timeframe := nth i timeframes EmptyString in
      if fetchOk symbol (Some timeframe) then charts ++ [(symbol, Some timeframe)]
      else charts)
    (seq 0 maxCharts) [].

Definition addSymbolCharts (fetchOk : ChartFetch) (symbols : list string)
  : list (string * option string) :=
  fold_left (fun charts symbol =>
      if fetchOk symbol None then charts ++ [(symbol, None)] else charts)
    symbols [].

Definition addChartsToRenderer (fetchOk : ChartFetch) (timeframes : option (list string))
  (symbols : list string) : list (string * option string) :=
  match timeframes with
  | Some ((_ :: _) as tfs) => addTimeframeCharts fetchOk tfs symbols
  | _ => addSymbolCharts fetchOk symbols
  end.

(** The part of [ComparisonConfig] that decides which charts are added. *)
Record ServiceConfig := mkServiceConfig {
  svc_symbols : list string;
  svc_timeframes : option (list string);
  svc_outputPath : option string;
  svc_layout : option ComparisonLayout
}.

(** [Partial<ComparisonConfig>]: the keys an optional [config] sets
    ([None]: the key is absent; an undefined [config] sets none). *)
Record PartialServiceConfig := mkPartialConfig {
  p_symbols : option (list string);
  p_timeframes : option (list string);
  p_outputPath : option string;
  p_layout : option ComparisonLayout
}.

Definition no_partial : PartialServiceConfig := mkPartialConfig None None None None.

(** [ComparisonService.timeframeComparison]: the object literal, with
    [...config] spread last, so a key [config] sets replaces the
    literal's. *)
Definition timeframeComparison (symbol : string) (timeframes : list string)
  (outputPath : string) (config : PartialServiceConfig) : ServiceConfig :=
  mkServiceConfig (override (p_symbols config) [symbol])
    (Some (override (p_timeframes config) timeframes))
    (Some (override (p_outputPath config) outputPath))
    (Some (override (p_layout config) (mkLayout SideBySide None (Some 20)))).

Definition service_charts (fetchOk : ChartFetch) (cfg : ServiceConfig)
  : list (string * option string) :=
  addChartsToRenderer fetchOk (svc_timeframes cfg) (svc_symbols cfg).

(* ------------------------------------------------------------------ *)
(** ** The layers [NodeChartRenderer.drawChart] draws after the shape *)

(** The [ChartOptions] and chart data these layers read; [showVWAP]
    and [showEMA] are [false] when undefined, and [levels] is
    [chartData.levels] ([None] for undefined; an empty array is truthy). *)
Record LayerConfig := mkLayerConfig {
  cfg_showVWAP : bool;
  cfg_showEMA : bool;
  cfg_emaPeriod : option nat;
  cfg_levels : option (list HorizontalLevel);
  cfg_showGrid : option bool;
  cfg_showTimeAxis : option bool;
  cfg_textColor : option string;
  cfg_gridColor : option string;
  cfg_borderColor : option string;
  cfg_colors : BarColors
}.

Definition drawChart_layers (k : Clock) (cfg : LayerConfig) (dims : ChartDimensions)
  (pr : PriceRange) (ohlc : list candle) : list CanvasCmd :=
  (if cfg_showVWAP cfg && hasVolumeData ohlc
   then vwap_render dims pr (cfg_colors cfg) ohlc else [])
  ++ (if cfg_showEMA cfg
      then match cfg_emaPeriod cfg with
           | Some (S _ as p) => ema_render dims pr (cfg_colors cfg) p ohlc
           | _ => []
           end
      else [])
  ++ (match cfg_levels cfg with
      | Some lv => levels_render dims pr lv
      | None => []
      end)
  ++ (match cfg_showGrid cfg with
      | Some false => []
      | _ => map Draw (grid_render dims (cfg_gridColor cfg) (cfg_showGrid cfg))
      end)
  ++ map Draw (axes_render k dims pr (cfg_borderColor cfg) (cfg_textColor cfg)
                 (cfg_gridColor cfg) (cfg_showTimeAxis cfg) ohlc).

(** The dash pattern in force at each stroke of a trace, starting from
    [dash] (the canvas starts with a solid line, [[]]). *)
Fixpoint stroke_dashes_from (dash : list Q) (cmds : list CanvasCmd) : list (list Q) :=
  match cmds with
  | [] => []
  | SetLineDash d :: r => stroke_dashes_from d r
  | Draw Stroke :: r => dash :: stroke_dashes_from dash r
  | Draw (StrokeRect _ _ _ _) :: r => dash :: stroke_dashes_from dash r
  | _ :: r => stroke_dashes_from dash r
  end.

Definition stroke_dashes (cmds : list CanvasCmd) : list (list Q) :=
  stroke_dashes_from [] cmds.

(** The commands that stroke: [stroke()] and [strokeRect]. *)
Definition is_stroke (c : DrawCmd) : bool :=
  match c with
  | Stroke | StrokeRect _ _ _ _ => true
  | _ => false
  end.

(** [in_plot] on the path commands of a trace with dash and alpha. *)
Definition canvas_in_plot (dims : ChartDimensions) (cmd : CanvasCmd) : Prop :=
  match cmd with
  | Draw d => in_plot dims d
  | _ => True
  end.

(** The layers with only the VWAP line switched on. *)
Definition cfg_vwap_only : LayerConfig :=
  mkLayerConfig true false None None None None None None None no_colors.

(** VWAP on, and EMA on with the falsy period [0]. *)
Definition cfg_vwap_ema_zero : LayerConfig :=
  mkLayerConfig true true (Some 0%nat) None None None None None None no_colors.

(** The number of [fillText] calls of a trace. *)
Definition count_text (cmds : list DrawCmd) : nat :=
  List.length (filter (fun c => match c with FillText _ _ _ => true | _ => false end) cmds).

(** The bricks of a Renko series, from price [p] on: each brick opens
    where the previous one closed, moves by one brick ([brickSize]
    times its opening price) up or down, and spans its open and close. *)
Fixpoint renko_chain (brickSize p : Q) (bs : list RenkoBlock) : Prop :=
  match bs with
  | [] => True
  | b :: r =>
      ropen b = p /\ (direction b = 1%Z \/ direction b = (-1)%Z) /\
      rclose b = ropen b + inject_Z (direction b) * brickSize * ropen b /\
      rhigh b = Qmax (ropen b) (rclose b) /\ rlow b = Qmin (ropen b) (rclose b) /\
      renko_chain brickSize (rclose b) r
  end.

(** The closing price of the last brick, [p] when there is none. *)
Definition chain_end (p : Q) (bs : list RenkoBlock) : Q :=
  fold_left (fun _ b => rclose b) bs p.

(** The factor a scale knob multiplies the range by in
    [calculatePriceRange]: [1] when it is falsy. *)
Definition scale_factor (o : option Q) : Q :=
  match o with
  | Some k => if truthy_num o then k else 1
  | None => 1
  end.

(* ------------------------------------------------------------------ *)
(** ** [HeikinAshiRenderer.render] *)

(** The [forEach] body, in the frame [fr] recomputed from the smoothed
    series. *)
Definition ha_candle_cmds (dims : ChartDimensions) (colors : BarColors)
  (fr : PriceRange) (n index : nat) (c : candle) : list DrawCmd :=
  let candleWidth := Qmax 1 ((chartWidth dims / inject_nat n) * (8 # 10)) in
  let spacing := chartWidth dims / inject_nat n in
  let x := margin_left dims + inject_nat index * spacing + spacing / 2 in
  let openY := price_y dims fr (open c) in
  let closeY := price_y dims fr (close c) in
  let highY := price_y dims fr (high c) in
  let lowY := price_y dims fr (low c) in
  let color := if Qle_bool (open c) (close c)
               then or_default (bullish colors) "#4CAF50"
               else or_default (bearish colors) "#F44336" in
  let bodyHeight := Qmax 1 (Qabs (closeY - openY)) in
  let bodyY := Qmin openY closeY in
  [SetStrokeStyle (or_default (wick colors) "#666666"); SetLineWidth 1; BeginPath;
   MoveTo x highY; LineTo x lowY; Stroke;
   SetFillStyle color; FillRect (x - candleWidth / 2) bodyY candleWidth bodyHeight].

(** The priceRange handed to the renderer is not read; with no candle
    the [forEach] draws nothing. *)
Definition ha_render (dims : ChartDimensions) (colors : BarColors)
  (candles : list candle) : list DrawCmd :=
  let haData := calculateHeikinAshi candles in
  match ha_frame haData with
  | None => []
  | Some fr => List.concat (mapi_from (ha_candle_cmds dims colors fr (List.length haData)) 0 haData)
  end.

(* ------------------------------------------------------------------ *)
(** ** [NodeChartRenderer.drawChart] *)

(** The values of [config.chartType || 'candlestick'] whose renderers
    the trace covers ([area] fills a gradient path the trace has no
    command for, and [line-break] has no renderer in the sources). *)
Inductive ChartType := Candlestick | LineChart | HeikinAshi | Renko.

(** [drawChartType]; [None] when the renderer throws. *)
Definition drawChartType (ct : option ChartType) (dims : ChartDimensions)
  (pr : PriceRange) (colors : BarColors) (ohlc : list candle) : option (list DrawCmd) :=
  match ct with
  | None | Some Candlestick => Some (candlestick_render dims pr colors ohlc)
  | Some LineChart => Some (line_render dims pr colors ohlc)
  | Some HeikinAshi => Some (ha_render dims colors ohlc)
  | Some Renko => renko_render dims colors ohlc
  end.

(** [drawChart]: returns at once on an empty series; otherwise one
    [priceRange], from the candles and the scale options, for the chart
    type's renderer and for the layers after it. *)
Definition drawChart_trace (k : Clock) (ct : option ChartType) (sc : ScaleOptions)
  (cfg : LayerConfig) (width height : Q) (margin : option Margin) (ohlc : list candle)
  : option (list CanvasCmd) :=
  match ohlc with
  | [] => Some []
  | _ =>
      let dims := drawChart_dims width height margin in
      match calculatePriceRange ohlc sc with
      | None => None
      | Some pr =>
          match drawChartType ct dims pr (cfg_colors cfg) ohlc with
          | None => None
          | Some shape => Some (map Draw shape ++ drawChart_layers k cfg dims pr ohlc)
          end
      end
  end.

(* ================================================================== *)
(** * Properties *)

(** The well-formedness invariant of a candle in the data model:
    [high >= max(open, close)] and [low <= min(open, close)]. *)
Definition wf_candle (c : candle) : Prop :=
  Qmax (open c) (close c) <= high c /\ low c <= Qmin (open c) (close c).

(** The minimum and maximum of a non-empty list, as a right fold
    (independent of the left folds [Math.min] and [Math.max] are
    modelled with). *)
Fixpoint qlist_min (x : Q) (l : list Q) : Q :=
  match l with [] => x | y :: r => Qmin x (qlist_min y r) end.

Fixpoint qlist_max (x : Q) (l : list Q) : Q :=
  match l with [] => x | y :: r => Qmax x (qlist_max y r) end.

(* ------------------------------------------------------------------ *)
(** ** Minimum and maximum of a list *)

Lemma Qmin_cases (a b : Q) : Qmin a b = a \/ Qmin a b = b.
Proof. unfold Qmin, GenericMinMax.gmin. destruct (a ?= b); auto. Qed.

Lemma Qmax_cases (a b : Q) : Qmax a b = a \/ Qmax a b = b.
Proof. unfold Qmax, GenericMinMax.gmax. destruct (a ?= b); auto. Qed.

Lemma fold_min_in (r : list Q) : forall x, In (fold_left Qmin r x) (x :: r).
Proof.
  induction r as [|y r IH]; intro x; simpl; [now left|].
  destruct (IH (Qmin x y)) as [E|E].
  - rewrite <- E. destruct (Qmin_cases x y) as [->| ->]; auto.
  - auto.
Qed.

Lemma fold_max_in (r : list Q) : forall x, In (fold_left Qmax r x) (x :: r).
Proof.
  induction r as [|y r IH]; intro x; simpl; [now left|].
  destruct (IH (Qmax x y)) as [E|E].
  - rewrite <- E. destruct (Qmax_cases x y) as [->| ->]; auto.
  - auto.
Qed.

Lemma fold_min_le (r : list Q) : forall x y, In y (x :: r) -> fold_left Qmin r x <= y.
Proof.
  induction r as [|z r IH]; intros x y Hy; simpl.
  - destruct Hy as [E|[]]. subst y. apply Qle_refl.
  - destruct Hy as [E|[E|Hy]]; try subst y.
    + eapply Qle_trans; [apply (IH (Qmin x z) (Qmin x z)); now left|apply Q.le_min_l].
    + eapply Qle_trans; [apply (IH (Qmin x z) (Qmin x z)); now left|apply Q.le_min_r].
    + apply IH. now right.
Qed.

Lemma fold_max_ge (r : list Q) : forall x y, In y (x :: r) -> y <= fold_left Qmax r x.
Proof.
  induction r as [|z r IH]; intros x y Hy; simpl.
  - destruct Hy as [E|[]]. subst y. apply Qle_refl.
  - destruct Hy as [E|[E|Hy]]; try subst y.
    + eapply Qle_trans; [apply Q.le_max_l|apply (IH (Qmax x z) (Qmax x z)); now left].
    + eapply Qle_trans; [apply Q.le_max_r|apply (IH (Qmax x z) (Qmax x z)); now left].
    + apply IH. now right.
Qed.

Lemma js_min_spread_spec (xs : list Q) (m : Q) :
  js_min_spread xs = Some m -> In m xs /\ (forall y, In y xs -> m <= y).
Proof.
  destruct xs as [|x r]; simpl; intro H; [discriminate|].
  injection H as <-. split; [apply fold_min_in|intros; now apply fold_min_le].
Qed.

Lemma js_max_spread_spec (xs : list Q) (m : Q) :
  js_max_spread xs = Some m -> In m xs /\ (forall y, In y xs -> y <= m).
Proof.
  destruct xs as [|x r]; simpl; intro H; [discriminate|].
  injection H as <-. split; [apply fold_max_in|intros; now apply fold_max_ge].
Qed.

Lemma qlist_min_spec (l : list Q) : forall x,
  In (qlist_min x l) (x :: l) /\ (forall y, In y (x :: l) -> qlist_min x l <= y).
Proof.
  induction l as [|z r IH]; intro x; simpl.
  - split; [now left|intros y [E|[]]; subst y; apply Qle_refl].
  - destruct (IH z) as [Hin Hle]. split.
    + destruct (Qmin_cases x (qlist_min z r)) as [->| ->]; [now left|now right].
    + intros y [E|Hy]; [subst y|].
      * apply Q.le_min_l.
      * eapply Qle_trans; [apply Q.le_min_r|now apply Hle].
Qed.

Lemma qlist_max_spec (l : list Q) : forall x,
  In (qlist_max x l) (x :: l) /\ (forall y, In y (x :: l) -> y <= qlist_max x l).
Proof.
  induction l as [|z r IH]; intro x; simpl.
  - split; [now left|intros y [E|[]]; subst y; apply Qle_refl].
  - destruct (IH z) as [Hin Hle]. split.
    + destruct (Qmax_cases x (qlist_max z r)) as [->| ->]; [now left|now right].
    + intros y [E|Hy]; [subst y|].
      * apply Q.le_max_l.
      * eapply Qle_trans; [now apply Hle|apply Q.le_max_r].
Qed.

(* ------------------------------------------------------------------ *)
(** ** [calculatePriceRange] step by step *)

Lemma wf_low_le_high (c : candle) : wf_candle c -> low c <= high c.
Proof.
  intros [Hh Hl].
  apply Qle_trans with (open c);
    [eapply Qle_trans; [exact Hl|apply Q.le_min_l]
    |eapply Qle_trans; [apply Q.le_max_l|exact Hh]].
Qed.

Lemma in_prices_of (ohlc : list candle) (y : Q) :
  In y (prices_of ohlc) <-> exists d, In d ohlc /\ (y = high d \/ y = low d).
Proof.
  unfold prices_of. rewrite in_flat_map. split.
  - intros [d [Hd Hy]]. exists d. split; [exact Hd|].
    destruct Hy as [E|[E|[]]]; auto.
  - intros [d [Hd [E|E]]]; exists d; split; auto; subst y; simpl; auto.
Qed.

(** With no multiplier and no clamp the range is the (possibly padded)
    base range. *)
Lemma calculatePriceRange_unscaled (ohlc : list candle) (sc : ScaleOptions) (mn mx : Q) :
  truthy_num (scale_x sc) = false -> truthy_num (scale_y sc) = false ->
  minScale sc = None -> maxScale sc = None ->
  js_min_spread (prices_of ohlc) = Some mn ->
  js_max_spread (prices_of ohlc) = Some mx ->
  calculatePriceRange ohlc sc =
  if autoScale sc then
    let p := (mx - mn) * (5 # 100) in
    Some (mkPriceRange (mn - p) (mx + p) ((mx + p) - (mn - p)))
  else Some (mkPriceRange mn mx (mx - mn)).
Proof.
  intros Hx Hy Hmn Hmx E1 E2. unfold calculatePriceRange. rewrite E1, E2.
  destruct sc as [a ox oy mns mxs]; simpl in *; subst mns mxs.
  destruct ox as [kx|]; destruct oy as [ky|]; simpl in *;
    rewrite ?Hx, ?Hy; destruct a; reflexivity.
Qed.

(** The [x] multiplier alone, after the padding. *)
Lemma calculatePriceRange_auto_x (ohlc : list candle) (sc : ScaleOptions) (k mn mx : Q) :
  autoScale sc = true -> scale_x sc = Some k -> ~ k == 0 ->
  truthy_num (scale_y sc) = false ->
  minScale sc = None -> maxScale sc = None ->
  js_min_spread (prices_of ohlc) = Some mn ->
  js_max_spread (prices_of ohlc) = Some mx ->
  calculatePriceRange ohlc sc =
  let p := (mx - mn) * (5 # 100) in
  let '(mn', mx') := centred_rescale k (mn - p) (mx + p) in
  Some (mkPriceRange mn' mx' (mx' - mn')).
Proof.
  intros Ha Hk Hk0 Hy Hmn Hmx E1 E2.
  assert (Ht : truthy_num (Some k) = true).
  { unfold truthy_num. destruct (Qeq_bool k 0) eqn:E; [|reflexivity].
    apply Qeq_bool_eq in E. contradiction. }
  unfold calculatePriceRange. rewrite E1, E2.
  destruct sc as [a ox oy mns mxs]; cbn -[truthy_num] in *; subst a ox mns mxs.
  rewrite Ht. destruct oy as [ky|]; cbn -[truthy_num] in *; rewrite ?Hy; reflexivity.
Qed.

Lemma prices_min_is_min_low (c : candle) (cs : list candle) (m : Q) :
  Forall wf_candle (c :: cs) ->
  js_min_spread (prices_of (c :: cs)) = Some m ->
  m == qlist_min (low c) (map low cs).
Proof.
  intros Hwf Hm. apply js_min_spread_spec in Hm as [Hin Hle].
  destruct (qlist_min_spec (map low cs) (low c)) as [Hin' Hle'].
  change (low c :: map low cs) with (map low (c :: cs)) in Hin', Hle'.
  apply Qle_antisym.
  - apply Hle. apply in_map_iff in Hin' as [d [Ed Hd]].
    apply in_prices_of. exists d. split; [exact Hd|right; now rewrite Ed].
  - apply in_prices_of in Hin as [d [Hd [E|E]]]; subst m.
    + apply Qle_trans with (low d).
      * apply Hle'. now apply in_map.
      * apply wf_low_le_high. rewrite Forall_forall in Hwf. now apply Hwf.
    + apply Hle'. now apply in_map.
Qed.

Lemma prices_max_is_max_high (c : candle) (cs : list candle) (m : Q) :
  Forall wf_candle (c :: cs) ->
  js_max_spread (prices_of (c :: cs)) = Some m ->
  m == qlist_max (high c) (map high cs).
Proof.
  intros Hwf Hm. apply js_max_spread_spec in Hm as [Hin Hle].
  destruct (qlist_max_spec (map high cs) (high c)) as [Hin' Hle'].
  change (high c :: map high cs) with (map high (c :: cs)) in Hin', Hle'.
  apply Qle_antisym.
  - apply in_prices_of in Hin as [d [Hd [E|E]]]; subst m.
    + apply Hle'. now apply in_map.
    + apply Qle_trans with (high d).
      * apply wf_low_le_high. rewrite Forall_forall in Hwf. now apply Hwf.
      * apply Hle'. now apply in_map.
  - apply Hle. apply in_map_iff in Hin' as [d [Ed Hd]].
    apply in_prices_of. exists d. split; [exact Hd|left; now rewrite Ed].
Qed.

Lemma js_spreads_nonempty (c : candle) (cs : list candle) :
  exists mn mx, js_min_spread (prices_of (c :: cs)) = Some mn /\
                js_max_spread (prices_of (c :: cs)) = Some mx.
Proof. simpl. eexists _, _. split; reflexivity. Qed.

(* ------------------------------------------------------------------ *)
(** ** Price range (C1, C2) *)

(** C1: with no scale option in effect (no autoScale, no truthy [x] or
    [y] multiplier, no [minScale] or [maxScale]), the price range of a
    non-empty series of well-formed candles has [minPrice] the minimum of
    the lows, [maxPrice] the maximum of the highs and
    [priceRange = maxPrice - minPrice]. *)
Theorem calculatePriceRange_no_options_bounds (c : candle) (cs : list candle)
  (sc : ScaleOptions) :
  autoScale sc = false -> truthy_num (scale_x sc) = false ->
  truthy_num (scale_y sc) = false -> minScale sc = None -> maxScale sc = None ->
  Forall wf_candle (c :: cs) ->
  exists r, calculatePriceRange (c :: cs) sc = Some r /\
    minPrice r == qlist_min (low c) (map low cs) /\
    maxPrice r == qlist_max (high c) (map high cs) /\
    priceRange r == maxPrice r - minPrice r.
Proof.
  intros Ha Hx Hy Hmn Hmx Hwf.
  destruct (js_spreads_nonempty c cs) as (mn & mx & E1 & E2).
  rewrite (calculatePriceRange_unscaled _ _ mn mx Hx Hy Hmn Hmx E1 E2), Ha.
  eexists. split; [reflexivity|]. simpl. split; [|split].
  - now apply prices_min_is_min_low.
  - now apply prices_max_is_max_high.
  - apply Qeq_refl.
Qed.

Lemma calculatePriceRange_no_options_bounds_witness :
  exists r, calculatePriceRange [candle_a; candle_b; candle_c] no_scale = Some r /\
    minPrice r == qlist_min (low candle_a) (map low [candle_b; candle_c]) /\
    maxPrice r == qlist_max (high candle_a) (map high [candle_b; candle_c]) /\
    priceRange r == maxPrice r - minPrice r.
Proof.
  apply calculatePriceRange_no_options_bounds; try reflexivity.
  repeat constructor; vm_compute; discriminate.
Defined.

(** C2: with [autoScale] set and no clamp, both bounds first move
    outward by exactly 5% of the base range [baseMax - baseMin]; the [x]
    and [y] multipliers then scale the padded range [(baseMax + pad) -
    (baseMin - pad)] around the unchanged centre (the padding comes
    before any multiplier, so it is scaled with the range). With no
    truthy multiplier the bounds are [baseMin - pad] and [baseMax + pad]. *)
Theorem calculatePriceRange_autoScale_padding (c : candle) (cs : list candle)
  (sc : ScaleOptions) :
  autoScale sc = true -> minScale sc = None -> maxScale sc = None ->
  exists baseMin baseMax r,
    js_min_spread (prices_of (c :: cs)) = Some baseMin /\
    js_max_spread (prices_of (c :: cs)) = Some baseMax /\
    calculatePriceRange (c :: cs) sc = Some r /\
    let pad := (baseMax - baseMin) * (5 # 100) in
    let f := scale_factor (scale_x sc) * scale_factor (scale_y sc) in
    minPrice r == (baseMin + baseMax) / 2 - ((baseMax + pad) - (baseMin - pad)) * f / 2 /\
    maxPrice r == (baseMin + baseMax) / 2 + ((baseMax + pad) - (baseMin - pad)) * f / 2 /\
    (truthy_num (scale_x sc) = false -> truthy_num (scale_y sc) = false ->
     minPrice r == baseMin - pad /\ maxPrice r == baseMax + pad).
Proof.
  intros Ha Hmn Hmx.
  destruct (js_spreads_nonempty c cs) as (mn & mx & E1 & E2).
  destruct sc as [a ox oy mns mxs]; cbn in Ha, Hmn, Hmx; subst a mns mxs.
  unfold calculatePriceRange, scale_factor. cbn [autoScale scale_x scale_y minScale maxScale].
  rewrite E1, E2. exists mn, mx.
  destruct ox as [kx|]; [destruct (truthy_num (Some kx)) eqn:Tx|];
  destruct oy as [ky|]; try destruct (truthy_num (Some ky)) eqn:Ty;
  unfold centred_rescale; cbv beta iota zeta;
  (eexists; split; [reflexivity|split; [reflexivity|split; [reflexivity|]]]);
  cbn [minPrice maxPrice];
  (split; [field|split; [field|]]);
  intros H1 H2; try discriminate; split; field.
Qed.

Lemma calculatePriceRange_autoScale_padding_witness :
  autoScale autoscale_x2_y3 = true /\ minScale autoscale_x2_y3 = None /\
  maxScale autoscale_x2_y3 = None /\
  exists baseMin baseMax r,
    js_min_spread (prices_of [candle_a; candle_b]) = Some baseMin /\
    js_max_spread (prices_of [candle_a; candle_b]) = Some baseMax /\
    calculatePriceRange [candle_a; candle_b] autoscale_x2_y3 = Some r /\
    let pad := (baseMax - baseMin) * (5 # 100) in
    let f := scale_factor (scale_x autoscale_x2_y3) * scale_factor (scale_y autoscale_x2_y3) in
    minPrice r == (baseMin + baseMax) / 2 - ((baseMax + pad) - (baseMin - pad)) * f / 2 /\
    maxPrice r == (baseMin + baseMax) / 2 + ((baseMax + pad) - (baseMin - pad)) * f / 2 /\
    (truthy_num (scale_x autoscale_x2_y3) = false -> truthy_num (scale_y autoscale_x2_y3) = false ->
     minPrice r == baseMin - pad /\ maxPrice r == baseMax + pad).
Proof.
  split; [reflexivity|split; [reflexivity|split; [reflexivity|]]].
  apply calculatePriceRange_autoScale_padding; reflexivity.
Defined.

(* ------------------------------------------------------------------ *)
(** ** Heikin-Ashi (C3) *)

Lemma ha_fold_inv (l : list candle) : forall ha,
  exists ha',
    fold_left ha_iter l (List.length ha, ha) = (List.length ha + List.length l, ha')%nat /\
    List.length ha' = (List.length ha + List.length l)%nat /\
    (forall j, (j < List.length ha)%nat -> nth j ha' dummy_candle = nth j ha dummy_candle) /\
    (forall j, (List.length ha <= j < List.length ha + List.length l)%nat ->
       let c := nth (j - List.length ha) l dummy_candle in
       nth j ha' dummy_candle =
         if Nat.eqb j 0
         then mkCandle (time c) (open c) (high c) (low c) (close c) (volume c)
         else ha_step (nth (j - 1) ha' dummy_candle) c).
Proof.
  induction l as [|c l IH]; intro ha.
  - exists ha. simpl. rewrite Nat.add_0_r. repeat split; auto.
    intros j Hj. lia.
  - set (x := if Nat.eqb (List.length ha) 0
              then mkCandle (time c) (open c) (high c) (low c) (close c) (volume c)
              else ha_step (nth (List.length ha - 1) ha dummy_candle) c).
    assert (Hstep : ha_iter (List.length ha, ha) c = (List.length (ha ++ [x]), ha ++ [x])).
    { unfold ha_iter, x. rewrite length_app. simpl. rewrite Nat.add_1_r.
      destruct (Nat.eqb (List.length ha) 0); reflexivity. }
    destruct (IH (ha ++ [x])) as (ha' & Hf & Hlen & Hpre & Hnew).
    exists ha'. cbn [fold_left List.length]. rewrite Hstep, Hf.
    rewrite length_app in Hlen, Hpre, Hnew |- *. cbn [List.length] in Hlen, Hpre, Hnew |- *.
    split; [f_equal; lia|]. split; [lia|]. split.
    + intros j Hj. rewrite Hpre by lia. rewrite app_nth1 by lia. reflexivity.
    + intros j Hj. destruct (Nat.eq_dec j (List.length ha)) as [->|Hne].
      * rewrite (Hpre (List.length ha)) by lia.
        rewrite (app_nth2 ha [x] dummy_candle (le_n _)). rewrite Nat.sub_diag. simpl.
        unfold x. destruct (Nat.eqb (List.length ha) 0) eqn:E0; [reflexivity|].
        apply Nat.eqb_neq in E0. f_equal.
        rewrite (Hpre (List.length ha - 1)%nat) by lia. rewrite app_nth1 by lia. reflexivity.
      * rewrite Hnew by lia.
        replace (j - (List.length ha + 1))%nat with (j - List.length ha - 1)%nat by lia.
        destruct (j - List.length ha)%nat as [|m] eqn:Em; [lia|].
        simpl. replace (m - 0)%nat with m by lia. reflexivity.
Qed.

(** C3: the Heikin-Ashi series has the length of its input; its first
    candle is the first input candle; and every later candle [i] has
    [close = (open + high + low + close) / 4] of input candle [i],
    [open = (open + close) / 2] of output candle [i - 1],
    [high = max(input high, open, close)] and
    [low = min(input low, open, close)]. *)
Theorem calculateHeikinAshi_spec (ohlc : list candle) :
  List.length (calculateHeikinAshi ohlc) = List.length ohlc /\
  nth 0 (calculateHeikinAshi ohlc) dummy_candle = nth 0 ohlc dummy_candle /\
  forall i, (0 < i < List.length ohlc)%nat ->
    let c := nth i ohlc dummy_candle in
    let prev := nth (i - 1) (calculateHeikinAshi ohlc) dummy_candle in
    let o := nth i (calculateHeikinAshi ohlc) dummy_candle in
    close o = (open c + high c + low c + close c) / 4 /\
    open o = (open prev + close prev) / 2 /\
    high o = Qmax3 (high c) (open o) (close o) /\
    low o = Qmin3 (low c) (open o) (close o) /\
    time o = time c.
Proof.
  destruct (ha_fold_inv ohlc []) as (ha' & Hf & Hlen & _ & Hnew).
  simpl in Hf, Hlen, Hnew.
  unfold calculateHeikinAshi. rewrite Hf. simpl. split; [exact Hlen|]. split.
  - destruct ohlc as [|c0 l]; [destruct ha'; [reflexivity|discriminate]|].
    rewrite Hnew by (simpl; lia). simpl. destruct c0; reflexivity.
  - intros i Hi. rewrite Hnew by lia. rewrite Nat.sub_0_r.
    destruct i as [|i]; [lia|]. simpl. repeat split; reflexivity.
Qed.

Lemma calculateHeikinAshi_spec_witness :
  (0 < 2 < List.length [candle_a; candle_b; candle_c])%nat /\
  let ohlc := [candle_a; candle_b; candle_c] in
  let c := nth 2 ohlc dummy_candle in
  let prev := nth 1 (calculateHeikinAshi ohlc) dummy_candle in
  let o := nth 2 (calculateHeikinAshi ohlc) dummy_candle in
  close o = (open c + high c + low c + close c) / 4 /\
  open o = (open prev + close prev) / 2 /\
  high o = Qmax3 (high c) (open o) (close o) /\
  low o = Qmin3 (low c) (open o) (close o) /\
  time o = time c.
Proof.
  split; [simpl; lia|].
  exact (proj2 (proj2 (calculateHeikinAshi_spec [candle_a; candle_b; candle_c])) 2%nat
           ltac:(simpl; lia)).
Defined.

(* ------------------------------------------------------------------ *)
(** ** VWAP (C4) *)

Lemma vwap_fold_inv (l : list candle) : forall cvp cv out,
  exists rest,
    snd (fold_left vwap_iter l (cvp, cv, out)) = out ++ rest /\
    List.length rest = List.length l /\
    forall i, (i < List.length l)%nat ->
      let cv_i := fold_left (fun a c => a + volume_or_zero c) (firstn (S i) l) cv in
      let cvp_i := fold_left (fun a c => a + typicalPrice c * volume_or_zero c)
                     (firstn (S i) l) cvp in
      nth i rest dummy_vwap =
        mkVWAP (time (nth i l dummy_candle))
          (if Qlt_le_dec 0 cv_i then cvp_i / cv_i else typicalPrice (nth i l dummy_candle)).
Proof.
  induction l as [|c l IH]; intros cvp cv out.
  - exists []. simpl. rewrite app_nil_r. repeat split. intros i Hi. lia.
  - cbn [fold_left]. unfold vwap_iter at 2.
    set (v := volume_or_zero c). set (tp := typicalPrice c).
    set (x := mkVWAP (time c) (if Qlt_le_dec 0 (cv + v) then (cvp + tp * v) / (cv + v) else tp)).
    destruct (IH (cvp + tp * v) (cv + v) (out ++ [x])) as (rest & Hr & Hlen & Hnth).
    exists (x :: rest). rewrite Hr, <- app_assoc. split; [reflexivity|].
    split; [simpl; lia|].
    intros [|i] Hi; [reflexivity|].
    simpl in Hi. cbn [nth firstn fold_left]. apply Hnth. lia.
Qed.

Lemma fold_plus_sum {A : Type} (f : A -> Q) (xs : list A) : forall a0,
  fold_left (fun a c => a + f c) xs a0 == a0 + sumQ (map f xs).
Proof.
  induction xs as [|y xs IH]; intro a0; simpl.
  - ring.
  - rewrite IH. ring.
Qed.

Lemma sumQ_zero (f : candle -> Q) (xs : list candle) :
  Forall (fun c => f c == 0) xs -> sumQ (map f xs) == 0.
Proof.
  induction 1 as [|y xs Hy _ IH]; simpl; [reflexivity|].
  rewrite Hy, IH. reflexivity.
Qed.

(** C4 (as the code has it): one point per candle; point [i] is the
    running [Σ(volume × typicalPrice) / Σ volume] when the running
    volume is positive, and the candle's own typical price otherwise;
    so a series whose every volume is [0] or absent gets its typical
    prices. *)
Theorem calculateVWAP_spec (ohlc : list candle) :
  List.length (calculateVWAP ohlc) = List.length ohlc /\
  (forall i, (i < List.length ohlc)%nat ->
     let p := nth i (calculateVWAP ohlc) dummy_vwap in
     let c := nth i ohlc dummy_candle in
     vtime p = time c /\
     (0 < running_volume ohlc i -> vvalue p == vwap_ratio ohlc i) /\
     (running_volume ohlc i <= 0 -> vvalue p == typicalPrice c)) /\
  (Forall (fun c => volume_or_zero c == 0) ohlc ->
   forall i, (i < List.length ohlc)%nat ->
     vvalue (nth i (calculateVWAP ohlc) dummy_vwap) == typicalPrice (nth i ohlc dummy_candle)).
Proof.
  assert (Hmain : List.length (calculateVWAP ohlc) = List.length ohlc /\
    (forall i, (i < List.length ohlc)%nat ->
     let p := nth i (calculateVWAP ohlc) dummy_vwap in
     let c := nth i ohlc dummy_candle in
     vtime p = time c /\
     (0 < running_volume ohlc i -> vvalue p == vwap_ratio ohlc i) /\
     (running_volume ohlc i <= 0 -> vvalue p == typicalPrice c))).
  { destruct (vwap_fold_inv ohlc 0 0 []) as (rest & Hr & Hlen & Hnth).
    assert (Hc : calculateVWAP ohlc = rest).
    { unfold calculateVWAP. destruct ohlc as [|c0 l].
      - destruct rest; [reflexivity|discriminate].
      - exact Hr. }
    rewrite Hc. split; [exact Hlen|].
    intros i Hi. cbv zeta. rewrite (Hnth i Hi). cbn [vtime vvalue].
    split; [reflexivity|].
    unfold vwap_ratio, running_volume, running_volume_price.
    set (cvI := fold_left (fun a c => a + volume_or_zero c) (firstn (S i) ohlc) 0).
    set (cvpI := fold_left (fun a c => a + typicalPrice c * volume_or_zero c)
                   (firstn (S i) ohlc) 0).
    assert (E1 : cvI == sumQ (map volume_or_zero (firstn (S i) ohlc))).
    { unfold cvI. rewrite fold_plus_sum. apply Qplus_0_l. }
    assert (E2 : cvpI == sumQ (map (fun c => typicalPrice c * volume_or_zero c)
                                 (firstn (S i) ohlc))).
    { unfold cvpI. rewrite fold_plus_sum. apply Qplus_0_l. }
    destruct (Qlt_le_dec 0 cvI) as [Hpos|Hneg]; split; intro H.
    - rewrite E1, E2. reflexivity.
    - exfalso. rewrite E1 in Hpos. exact (Qlt_not_le _ _ Hpos H).
    - exfalso. rewrite E1 in Hneg. exact (Qlt_not_le _ _ H Hneg).
    - reflexivity. }
  destruct Hmain as [Hlen Hpt]. split; [exact Hlen|]. split; [exact Hpt|].
  intros Hz i Hi. apply (Hpt i Hi).
  unfold running_volume. rewrite sumQ_zero; [apply Qle_refl|].
  apply Forall_forall. intros c Hc. rewrite Forall_forall in Hz.
  apply Hz. rewrite <- (firstn_skipn (S i) ohlc). apply in_or_app. now left.
Qed.

Lemma calculateVWAP_spec_witness :
  Forall (fun c => volume_or_zero c == 0) [candle_a; candle_c] /\
  (1 < List.length [candle_a; candle_c])%nat /\
  vvalue (nth 1 (calculateVWAP [candle_a; candle_c]) dummy_vwap)
    == typicalPrice (nth 1 [candle_a; candle_c] dummy_candle).
Proof.
  assert (Hz : Forall (fun c => volume_or_zero c == 0) [candle_a; candle_c])
    by (repeat constructor).
  split; [exact Hz|split; [simpl; lia|]].
  exact (proj2 (proj2 (calculateVWAP_spec [candle_a; candle_c])) Hz 1%nat
           ltac:(simpl; lia)).
Defined.

(** C4 as stated fails: for one candle without volume the point is the
    typical price [100], not the quotient [Σ(volume × typicalPrice) / Σ volume]
    of two zero sums (NaN in the source's arithmetic, [0] over [Q]). *)
Lemma calculateVWAP_ratio_counterexample :
  vvalue (nth 0 (calculateVWAP [candle_a]) dummy_vwap) == 100 /\
  running_volume [candle_a] 0 == 0 /\
  ~ (vvalue (nth 0 (calculateVWAP [candle_a]) dummy_vwap) == vwap_ratio [candle_a] 0).
Proof.
  split; [reflexivity|split; [reflexivity|]].
  vm_compute. intro H. discriminate H.
Qed.

(* ------------------------------------------------------------------ *)
(** ** Renko on a flat series (C5) *)

Lemma renko_iter_flat (brickSize p : Q) (c : candle) :
  0 < brickSize -> close c == p -> renko_iter brickSize ([], p) c = ([], p).
Proof.
  intros Hb Hc. unfold renko_iter.
  destruct (Qle_bool brickSize (Qabs ((close c - p) / p))) eqn:E; [|reflexivity].
  exfalso. apply Qle_bool_iff in E.
  assert (H0 : Qabs ((close c - p) / p) == 0).
  { rewrite Hc. unfold Qminus. rewrite Qplus_opp_r. reflexivity. }
  rewrite H0 in E. exact (Qlt_not_le _ _ Hb E).
Qed.

Lemma renko_fold_flat (brickSize p : Q) (cs : list candle) :
  0 < brickSize -> Forall (fun c => close c == p) cs ->
  fold_left (renko_iter brickSize) cs ([], p) = ([], p).
Proof.
  intros Hb. induction 1 as [|c cs Hc _ IH]; [reflexivity|].
  cbn [fold_left]. rewrite (renko_iter_flat _ _ _ Hb Hc). exact IH.
Qed.

(** C5: for a non-empty series whose every close equals the first close,
    the Renko computation yields no brick, and the Renko renderer draws
    nothing and does not throw. *)
Theorem renko_flat_series_no_bricks (c0 : candle) (cs : list candle)
  (dims : ChartDimensions) (colors : BarColors) :
  Forall (fun c => close c == close c0) cs ->
  calculateRenko (c0 :: cs) (2 # 100) = Some [] /\
  renko_render dims colors (c0 :: cs) = Some [].
Proof.
  intro Hflat.
  assert (H : calculateRenko (c0 :: cs) (2 # 100) = Some []).
  { unfold calculateRenko. rewrite renko_fold_flat; [reflexivity| |exact Hflat].
    reflexivity. }
  split; [exact H|]. unfold renko_render. rewrite H. reflexivity.
Qed.

Lemma renko_flat_series_no_bricks_witness :
  Forall (fun c => close c == close candle_a) [candle_flat; candle_a] /\
  calculateRenko [candle_a; candle_flat; candle_a] (2 # 100) = Some [] /\
  renko_render dims_800x600 no_colors [candle_a; candle_flat; candle_a] = Some [].
Proof.
  assert (Hf : Forall (fun c => close c == close candle_a) [candle_flat; candle_a])
    by (repeat constructor).
  split; [exact Hf|].
  exact (renko_flat_series_no_bricks candle_a [candle_flat; candle_a]
           dims_800x600 no_colors Hf).
Defined.

(* ------------------------------------------------------------------ *)
(** ** Grid comparison limits (C6) *)

(** C6: with more than two symbols, or more than two columns, [grid]
    returns [{success: false, error}] at once, without building the
    comparison service (so nothing is fetched or rendered); the message
    names the violated limit ("maximum 2 symbols", or "maximum 2 columns"
    when the symbol count is within the limit). *)
Theorem grid_rejects_over_limit (symbols : list string) (columns : Z)
  (outputPath : string) (config : ConfigOverride) :
  (2 < List.length symbols)%nat \/ (2 < columns)%Z ->
  exists msg,
    grid symbols columns outputPath config = GridReturns (mkResult false None (Some msg)) /\
    ((2 < List.length symbols)%nat ->
       String.prefix "Grid layout supports maximum 2 symbols" msg = true) /\
    ((List.length symbols <= 2)%nat ->
       String.prefix "Grid layout supports maximum 2 columns" msg = true).
Proof.
  intro H. unfold grid.
  destruct (Nat.ltb 2 (List.length symbols)) eqn:Es.
  - apply Nat.ltb_lt in Es. eexists. split; [reflexivity|].
    split; [reflexivity|intro; lia].
  - apply Nat.ltb_ge in Es.
    destruct (Z.ltb 2 columns) eqn:Ec.
    + eexists. split; [reflexivity|]. split; [intro; lia|reflexivity].
    + apply Z.ltb_ge in Ec. lia.
Qed.

Lemma grid_rejects_over_limit_witness :
  ((2 < List.length ["BTCUSDT"; "ETHUSDT"; "SOLUSDT"]%string)%nat \/ (2 < 2)%Z) /\
  exists msg,
    grid ["BTCUSDT"; "ETHUSDT"; "SOLUSDT"]%string 2 "out.png" no_override
      = GridReturns (mkResult false None (Some msg)) /\
    ((2 < List.length ["BTCUSDT"; "ETHUSDT"; "SOLUSDT"]%string)%nat ->
       String.prefix "Grid layout supports maximum 2 symbols" msg = true) /\
    ((List.length ["BTCUSDT"; "ETHUSDT"; "SOLUSDT"]%string <= 2)%nat ->
       String.prefix "Grid layout supports maximum 2 columns" msg = true).
Proof.
  assert (H : (2 < List.length ["BTCUSDT"; "ETHUSDT"; "SOLUSDT"]%string)%nat \/ (2 < 2)%Z)
    by (left; simpl; lia).
  split; [exact H|].
  exact (grid_rejects_over_limit _ 2 "out.png" no_override H).
Defined.

(* ------------------------------------------------------------------ *)
(** ** Time labels and the wall clock (C7) *)

Lemma formatTime_same_local_day (k1 k2 : Clock) (t : Z) :
  tz_offset_min k1 = tz_offset_min k2 ->
  local_day k1 (now_ms k1) = local_day k2 (now_ms k2) ->
  formatTime k1 t = formatTime k2 t.
Proof.
  intros Hoff Hday.
  assert (Hms : forall u, local_ms k1 u = local_ms k2 u)
    by (intro u; unfold local_ms; now rewrite Hoff).
  assert (Hd : forall u, local_day k1 u = local_day k2 u)
    by (intro u; unfold local_day; now rewrite Hms).
  unfold formatTime. rewrite Hms, Hday, (Hd t). reflexivity.
Qed.

(** C7 (as the code has it): the time-axis labels, the one part of a
    render that reads the wall clock, depend on it only through the
    current local calendar day; two renders of the same inputs on the
    same local day (same time zone) issue the same label commands. *)
Theorem drawTimeLabels_same_local_day (k1 k2 : Clock) (dims : ChartDimensions)
  (textColor gridColor : option string) (showTimeAxis : option bool)
  (ohlc : list candle) :
  tz_offset_min k1 = tz_offset_min k2 ->
  local_day k1 (now_ms k1) = local_day k2 (now_ms k2) ->
  drawTimeLabels k1 dims textColor gridColor showTimeAxis ohlc =
  drawTimeLabels k2 dims textColor gridColor showTimeAxis ohlc.
Proof.
  intros Hoff Hday. unfold drawTimeLabels.
  destruct ohlc as [|c cs]; [reflexivity|].
  assert (Hcmd : forall i, time_label_cmds k1 dims gridColor (c :: cs) i =
                           time_label_cmds k2 dims gridColor (c :: cs) i).
  { intro i. unfold time_label_cmds.
    rewrite (formatTime_same_local_day k1 k2 _ Hoff Hday). reflexivity. }
  destruct showTimeAxis as [[|]|]; try reflexivity;
    f_equal; f_equal; apply map_ext; exact Hcmd.
Qed.

Lemma drawTimeLabels_same_local_day_witness :
  tz_offset_min clock_same_day = tz_offset_min (mkClock 1700001000000 0) /\
  local_day clock_same_day (now_ms clock_same_day)
    = local_day (mkClock 1700001000000 0) (now_ms (mkClock 1700001000000 0)) /\
  drawTimeLabels clock_same_day dims_800x600 None None None [candle_a; candle_b] =
  drawTimeLabels (mkClock 1700001000000 0) dims_800x600 None None None [candle_a; candle_b].
Proof.
  assert (H1 : tz_offset_min clock_same_day = tz_offset_min (mkClock 1700001000000 0))
    by reflexivity.
  assert (H2 : local_day clock_same_day (now_ms clock_same_day)
               = local_day (mkClock 1700001000000 0) (now_ms (mkClock 1700001000000 0)))
    by (vm_compute; reflexivity).
  split; [exact H1|split; [exact H2|]].
  exact (drawTimeLabels_same_local_day _ _ dims_800x600 None None None _ H1 H2).
Defined.

(** C7 as stated fails: the same candle and options rendered on the
    candle's own day and one day later give different time labels. *)
Lemma drawTimeLabels_wall_clock_counterexample :
  formatTime clock_same_day (time candle_a) = "22:13"%string /\
  formatTime clock_next_day (time candle_a) = "Nov 14, 22:13"%string /\
  drawTimeLabels clock_same_day dims_800x600 None None None [candle_a]
  <> drawTimeLabels clock_next_day dims_800x600 None None None [candle_a].
Proof.
  split; [vm_compute; reflexivity|split; [vm_compute; reflexivity|]].
  vm_compute. intro H. discriminate H.
Qed.

(* ------------------------------------------------------------------ *)
(** ** Side-by-side layout (C8) *)

(** With two charts the side-by-side positions are the even split. *)
Lemma side_by_side_two_charts (width height gap : Q) :
  ~ gap == 0 ->
  addCharts (mkLayout SideBySide None (Some gap)) width height 2 [] =
  [mkPos (inject_nat 0 * ((width - gap) / inject_nat 2 + gap)) 0 ((width - gap) / inject_nat 2) height;
   mkPos (inject_nat 1 * ((width - gap) / inject_nat 2 + gap)) 0 ((width - gap) / inject_nat 2) height].
Proof.
  intro Hg.
  assert (Hn : num_or (Some gap) 10 = gap).
  { unfold num_or, truthy_num. destruct (Qeq_bool gap 0) eqn:E; [|reflexivity].
    apply Qeq_bool_eq in E. contradiction. }
  simpl. unfold addChart, calculatePosition. simpl. rewrite Hn. reflexivity.
Qed.

(** C8 fails by a slip in [calculatePosition]: the side-by-side width is
    [(width - gap) / max(this.charts.length, 2)], read before the chart
    is pushed, and ignores [totalCharts] (which the grid branch uses).
    For [ComparisonService.sideBySide] with three symbols (1600 x 800,
    gap 20) the third chart is 790 wide and starts at x = 1620, off the
    canvas, instead of being (1600 - 2 * 20) / 3 = 520 wide at x = 1080. *)
Lemma side_by_side_three_charts :
  let p := nth 2 (addCharts (mkLayout SideBySide None (Some 20)) 1600 800 3 []) dummy_pos in
  px p == 1620 /\ pw p == 790 /\ ph p == 800 /\
  ~ pw p == (1600 - 2 * 20) / 3 /\ ~ px p == 2 * ((1600 - 2 * 20) / 3 + 20) /\
  1600 < px p.
Proof.
  vm_compute. split; [reflexivity|split; [reflexivity|split; [reflexivity|]]].
  split; [intro H; discriminate H|split; [intro H; discriminate H|reflexivity]].
Qed.

(* ------------------------------------------------------------------ *)
(** ** Which frame each layer is drawn in (C9) *)

(** C9 fails by a slip in [drawChart]: it computes one [priceRange]
    from the original candles and hands it to the chart type's renderer
    and to the VWAP, EMA, levels and axes renderers. The Renko renderer
    ignores it and draws its bricks in a frame recomputed from the
    brick extremes, while the axes and the overlays keep the original
    range. In the Renko render of [candle_a; candle_b] (800 x 600,
    default margins, VWAP on) the first brick opens at the first close,
    100, and its lower edge lies on the bottom of the plot (y = 560);
    the price axis writes "90.00" there, and the VWAP line draws its
    first point, of value 100, at y = 60 + (120 - 100) / 30 * 500 =
    393.33, not at the brick's opening edge. *)
Theorem drawChart_renko_axis_mismatch :
  let ohlc := [candle_a; candle_b] in
  let dims := drawChart_dims 800 600 None in
  match calculateRenko ohlc (2 # 100), calculateVWAP ohlc,
        drawChart_trace clock_same_day (Some Renko) no_scale cfg_vwap_only 800 600 None ohlc with
  | Some (b :: _), v :: _, Some cmds =>
      ropen b == close candle_a /\ vvalue v == 100 /\
      match nth 1 cmds (Draw Stroke) with
      | Draw (FillRect _ y _ h) => y + h == margin_top dims + chartHeight dims
      | _ => False
      end /\
      match nth 104 cmds (Draw Stroke), nth 108 cmds (Draw Stroke) with
      | Draw (FillText s _ ylab), Draw (MoveTo _ ytick) =>
          s = "90.00"%string /\ ylab == margin_top dims + chartHeight dims + 4 /\
          ytick == margin_top dims + chartHeight dims
      | _, _ => False
      end /\
      match nth 14 cmds (Draw Stroke) with
      | Draw (MoveTo _ yv) =>
          yv == 60 + (120 - 100) / 30 * 500 /\ ~ yv == margin_top dims + chartHeight dims
      | _ => False
      end
  | _, _, _ => False
  end.
Proof.
  vm_compute.
  split; [reflexivity|split; [reflexivity|split; [reflexivity|]]].
  split; [split; [reflexivity|split; reflexivity]|].
  split; [reflexivity|intro H; discriminate H].
Qed.

(* ------------------------------------------------------------------ *)
(** ** Degenerate ranges (C10) *)

(** C10 (as the code has it): with no multiplier and no clamp, the price
    range of a non-empty well-formed series is non-negative, and it is
    [0] exactly when the highest high equals the lowest low (a flat
    series): nothing pads it, with or without [autoScale]. *)
Theorem calculatePriceRange_flat_range (c : candle) (cs : list candle) (sc : ScaleOptions) :
  truthy_num (scale_x sc) = false -> truthy_num (scale_y sc) = false ->
  minScale sc = None -> maxScale sc = None ->
  Forall wf_candle (c :: cs) ->
  exists r, calculatePriceRange (c :: cs) sc = Some r /\
    0 <= priceRange r /\
    (priceRange r == 0 <-> qlist_max (high c) (map high cs) == qlist_min (low c) (map low cs)).
Proof.
  intros Hx Hy Hmn Hmx Hwf.
  destruct (js_spreads_nonempty c cs) as (mn & mx & E1 & E2).
  pose proof (prices_min_is_min_low c cs mn Hwf E1) as Hmin.
  pose proof (prices_max_is_max_high c cs mx Hwf E2) as Hmax.
  assert (Hle : mn <= mx).
  { apply js_min_spread_spec in E1 as [_ H1]. apply js_max_spread_spec in E2 as [_ H2].
    apply Qle_trans with (low c); [apply H1; simpl; auto|].
    apply Qle_trans with (high c); [|apply H2; simpl; auto].
    apply wf_low_le_high. now inversion Hwf. }
  rewrite (calculatePriceRange_unscaled _ _ mn mx Hx Hy Hmn Hmx E1 E2).
  destruct (autoScale sc); eexists; (split; [reflexivity|]); simpl;
    (split; [lra|split; intro; lra]).
Qed.

Lemma calculatePriceRange_flat_range_witness :
  Forall wf_candle [candle_a; candle_flat] /\
  exists r, calculatePriceRange [candle_a; candle_flat] no_scale = Some r /\
    0 <= priceRange r /\
    (priceRange r == 0 <->
       qlist_max (high candle_a) (map high [candle_flat])
       == qlist_min (low candle_a) (map low [candle_flat])).
Proof.
  assert (Hwf : Forall wf_candle [candle_a; candle_flat])
    by (repeat constructor; vm_compute; discriminate).
  split; [exact Hwf|].
  exact (calculatePriceRange_flat_range candle_a [candle_flat] no_scale
           eq_refl eq_refl eq_refl eq_refl Hwf).
Defined.

(** C10 as stated fails: a single flat candle gets [priceRange = 0]. *)
Lemma calculatePriceRange_flat_counterexample :
  exists r, calculatePriceRange [candle_a] no_scale = Some r /\ priceRange r == 0.
Proof. eexists. split; [reflexivity|]. reflexivity. Qed.

(* ================================================================== *)
(** * Further properties of the rendering core *)

(** Turn every [Qmin] and [Qmax] of the goal and the context into a
    name with its defining case, for [lra]. *)
Ltac elim_minmax :=
  repeat match goal with
  | |- context [Qmin ?a ?b] =>
      let m := fresh "m" in
      destruct (Q.min_spec a b) as [[? ?]|[? ?]]; set (m := Qmin a b) in *
  | |- context [Qmax ?a ?b] =>
      let m := fresh "m" in
      destruct (Q.max_spec a b) as [[? ?]|[? ?]]; set (m := Qmax a b) in *
  | H : context [Qmin ?a ?b] |- _ =>
      let m := fresh "m" in
      destruct (Q.min_spec a b) as [[? ?]|[? ?]]; set (m := Qmin a b) in *
  | H : context [Qmax ?a ?b] |- _ =>
      let m := fresh "m" in
      destruct (Q.max_spec a b) as [[? ?]|[? ?]]; set (m := Qmax a b) in *
  end.

(** Division by a literal, as a product [lra] reads. *)
Ltac qdiv_lits :=
  unfold Qdiv in *;
  repeat match goal with
  | |- context [Qinv (Qmake ?n ?d)] =>
      let v := eval vm_compute in (Qinv (Qmake n d)) in
      change (Qinv (Qmake n d)) with v in *
  | H : context [Qinv (Qmake ?n ?d)] |- _ =>
      let v := eval vm_compute in (Qinv (Qmake n d)) in
      change (Qinv (Qmake n d)) with v in *
  end.

(* ------------------------------------------------------------------ *)
(** ** Heikin-Ashi series *)

Lemma ha_char (ohlc : list candle) :
  List.length (calculateHeikinAshi ohlc) = List.length ohlc /\
  forall j, (j < List.length ohlc)%nat ->
    nth j (calculateHeikinAshi ohlc) dummy_candle =
    if Nat.eqb j 0
    then mkCandle (time (nth j ohlc dummy_candle)) (open (nth j ohlc dummy_candle))
           (high (nth j ohlc dummy_candle)) (low (nth j ohlc dummy_candle))
           (close (nth j ohlc dummy_candle)) (volume (nth j ohlc dummy_candle))
    else ha_step (nth (j - 1) (calculateHeikinAshi ohlc) dummy_candle)
           (nth j ohlc dummy_candle).
Proof.
  destruct (ha_fold_inv ohlc []) as (ha' & Hf & Hlen & _ & Hnew).
  simpl in Hf, Hlen, Hnew. unfold calculateHeikinAshi. rewrite Hf. simpl.
  split; [exact Hlen|]. intros j Hj. rewrite Hnew by lia. rewrite Nat.sub_0_r. reflexivity.
Qed.

(** The Heikin-Ashi series keeps the timestamps and the volumes of its
    input, candle for candle. *)
Theorem calculateHeikinAshi_keeps_time_volume (ohlc : list candle) :
  map time (calculateHeikinAshi ohlc) = map time ohlc /\
  map volume (calculateHeikinAshi ohlc) = map volume ohlc.
Proof.
  destruct (ha_char ohlc) as [Hlen Hj].
  split; apply nth_ext with (d := time dummy_candle) (d' := time dummy_candle)
    || apply nth_ext with (d := volume dummy_candle) (d' := volume dummy_candle);
    rewrite ?length_map; try exact Hlen;
    intros n Hn; rewrite !map_nth; rewrite Hj by lia;
    destruct (Nat.eqb n 0); reflexivity.
Qed.

(** Every Heikin-Ashi candle after the first has
    [high >= max(open, close)] and [low <= min(open, close)], whatever
    the input; so the whole series is well formed when its first input
    candle is. *)
Theorem calculateHeikinAshi_wf (ohlc : list candle) :
  wf_candle (nth 0 ohlc dummy_candle) ->
  forall i, (i < List.length ohlc)%nat ->
    wf_candle (nth i (calculateHeikinAshi ohlc) dummy_candle).
Proof.
  intros H0 i Hi. destruct (ha_char ohlc) as [_ Hj]. rewrite Hj by exact Hi.
  destruct i as [|i]; [exact H0|]. cbn [Nat.eqb].
  generalize (nth (S i - 1) (calculateHeikinAshi ohlc) dummy_candle) as p.
  generalize (nth (S i) ohlc dummy_candle) as d. intros d p. clear.
  unfold wf_candle, ha_step, Qmax3, Qmin3. cbn [open close high low]. qdiv_lits; elim_minmax; split; lra.
Qed.

Lemma calculateHeikinAshi_wf_witness :
  wf_candle (nth 0 [candle_b; candle_c] dummy_candle) /\
  wf_candle (nth 1 (calculateHeikinAshi [candle_b; candle_c]) dummy_candle).
Proof.
  assert (H0 : wf_candle (nth 0 [candle_b; candle_c] dummy_candle))
    by (vm_compute; split; discriminate).
  split; [exact H0|].
  exact (calculateHeikinAshi_wf [candle_b; candle_c] H0 1%nat ltac:(simpl; lia)).
Defined.

(** Bounds kept along the Heikin-Ashi series of well-formed candles
    lying in [[L, H]]. *)
Lemma ha_bounds (ohlc : list candle) (L H : Q) :
  Forall wf_candle ohlc ->
  (forall d, In d ohlc -> L <= low d /\ high d <= H) ->
  forall j, (j < List.length ohlc)%nat ->
    let o := nth j (calculateHeikinAshi ohlc) dummy_candle in
    let c := nth j ohlc dummy_candle in
    L <= open o <= H /\ L <= close o <= H /\
    L <= low o /\ high o <= H /\ low o <= low c /\ high c <= high o.
Proof.
  intros Hwf Hin. destruct (ha_char ohlc) as [_ Hj].
  rewrite Forall_forall in Hwf.
  induction j as [|j IH]; intros Hlt o c; subst o c.
  - assert (Hc := nth_In ohlc dummy_candle Hlt).
    destruct (Hwf _ Hc) as [Hh Hl]. destruct (Hin _ Hc) as [HL HH].
    rewrite Hj by exact Hlt. cbn [Nat.eqb open close high low].
    revert Hh Hl HL HH. generalize (nth 0 ohlc dummy_candle) as d. intros d Hh Hl HL HH.
    clear Hj Hc Hwf Hin.
    qdiv_lits; elim_minmax; repeat split; lra.
  - assert (Hc := nth_In ohlc dummy_candle Hlt).
    destruct (Hwf _ Hc) as [Hh Hl]. destruct (Hin _ Hc) as [HL HH].
    destruct (IH ltac:(lia)) as (Ho & Hcl & _).
    rewrite (Hj (S j)) by exact Hlt. cbn [Nat.eqb]. replace (S j - 1)%nat with j by lia.
    revert Hh Hl HL HH Ho Hcl.
    generalize (nth (S j) ohlc dummy_candle) as d.
    generalize (nth j (calculateHeikinAshi ohlc) dummy_candle) as p.
    intros p d Hh Hl HL HH Ho Hcl. clear Hj IH Hc Hwf Hin.
    unfold ha_step, Qmax3, Qmin3. cbn [open close high low]. qdiv_lits; elim_minmax; repeat split; lra.
Qed.

(** For well-formed candles, the frame the Heikin-Ashi renderer
    recomputes from the smoothed series is the unscaled price range of
    the input: the smoothing never reaches beyond the lowest low and the
    highest high, and keeps them. *)
Theorem ha_frame_is_unscaled_range (c : candle) (cs : list candle) :
  Forall wf_candle (c :: cs) ->
  exists fr pr,
    ha_frame (calculateHeikinAshi (c :: cs)) = Some fr /\
    calculatePriceRange (c :: cs) no_scale = Some pr /\
    minPrice fr == minPrice pr /\ maxPrice fr == maxPrice pr.
Proof.
  intros Hwf.
  destruct (js_spreads_nonempty c cs) as (mn & mx & E1 & E2).
  destruct (ha_char (c :: cs)) as [Hlen Hj].
  set (ha := calculateHeikinAshi (c :: cs)) in *.
  destruct ha as [|h hs] eqn:Eha; [simpl in Hlen; discriminate|].
  destruct (js_spreads_nonempty h hs) as (mh & Mh & F1 & F2).
  exists (mkPriceRange mh Mh (Mh - mh)), (mkPriceRange mn mx (mx - mn)).
  split; [unfold ha_frame; rewrite F1, F2; reflexivity|].
  split; [rewrite (calculatePriceRange_unscaled _ no_scale mn mx eq_refl eq_refl eq_refl eq_refl E1 E2);
          reflexivity|].
  simpl.
  pose proof E1 as E1'. pose proof E2 as E2'. pose proof F1 as F1'. pose proof F2 as F2'.
  apply js_min_spread_spec in E1' as [Hmn_in Hmn_le].
  apply js_max_spread_spec in E2' as [Hmx_in Hmx_ge].
  apply js_min_spread_spec in F1' as [Hmh_in Hmh_le].
  apply js_max_spread_spec in F2' as [HMh_in HMh_ge].
  assert (Hb := ha_bounds (c :: cs) mn mx Hwf).
  assert (Hin : forall d, In d (c :: cs) -> mn <= low d /\ high d <= mx).
  { intros d Hd. split; [apply Hmn_le|apply Hmx_ge]; apply in_prices_of; eauto. }
  specialize (Hb Hin). fold ha in Hb. rewrite Eha in Hb.
  rewrite Forall_forall in Hwf.
  (* every smoothed price lies in [mn, mx] *)
  assert (Hall : forall y, In y (prices_of (h :: hs)) -> mn <= y <= mx).
  { intros y Hy. apply in_prices_of in Hy as [o [Ho Hyo]].
    apply In_nth with (d := dummy_candle) in Ho as [k [Hk Ek]].
    assert (Hk' : (k < List.length (c :: cs))%nat) by (rewrite <- Hlen; exact Hk).
    destruct (Hb k Hk') as (_ & _ & HL & HH & Hlo & Hhi). cbv zeta in *. rewrite Ek in *.
    assert (Hd := nth_In (c :: cs) dummy_candle Hk').
    pose proof (wf_low_le_high _ (Hwf _ Hd)).
    destruct Hyo; subst y; split; lra. }
  split; apply Qle_antisym.
  - (* min of the smoothed series <= min of the input *)
    apply in_prices_of in Hmn_in as [d [Hd Hyd]].
    apply In_nth with (d := dummy_candle) in Hd as [k [Hk Ek]].
    assert (Hk' : (k < List.length (h :: hs))%nat) by (rewrite Hlen; exact Hk).
    destruct (Hb k Hk) as (_ & _ & _ & _ & Hlo & _). cbv zeta in *. rewrite Ek in Hlo.
    assert (Hlow : mh <= low (nth k (h :: hs) dummy_candle)).
    { apply Hmh_le. apply in_prices_of. exists (nth k (h :: hs) dummy_candle).
      split; [apply nth_In; exact Hk'|right; reflexivity]. }
    assert (Hmnd : mn <= low d) by (apply Hin; rewrite <- Ek; apply nth_In; exact Hk).
    pose proof (wf_low_le_high d (Hwf d ltac:(rewrite <- Ek; apply nth_In; exact Hk))).
    destruct Hyd; subst mn; lra.
  - apply (Hall mh Hmh_in).
  - apply (Hall Mh HMh_in).
  - apply in_prices_of in Hmx_in as [d [Hd Hyd]].
    apply In_nth with (d := dummy_candle) in Hd as [k [Hk Ek]].
    assert (Hk' : (k < List.length (h :: hs))%nat) by (rewrite Hlen; exact Hk).
    destruct (Hb k Hk) as (_ & _ & _ & _ & _ & Hhi). cbv zeta in *. rewrite Ek in Hhi.
    assert (Hhigh : high (nth k (h :: hs) dummy_candle) <= Mh).
    { apply HMh_ge. apply in_prices_of. exists (nth k (h :: hs) dummy_candle).
      split; [apply nth_In; exact Hk'|left; reflexivity]. }
    assert (Hmxd : high d <= mx) by (apply Hin; rewrite <- Ek; apply nth_In; exact Hk).
    pose proof (wf_low_le_high d (Hwf d ltac:(rewrite <- Ek; apply nth_In; exact Hk))).
    destruct Hyd; subst mx; lra.
Qed.

Lemma ha_frame_is_unscaled_range_witness :
  Forall wf_candle [candle_a; candle_b; candle_c] /\
  exists fr pr,
    ha_frame (calculateHeikinAshi [candle_a; candle_b; candle_c]) = Some fr /\
    calculatePriceRange [candle_a; candle_b; candle_c] no_scale = Some pr /\
    minPrice fr == minPrice pr /\ maxPrice fr == maxPrice pr.
Proof.
  assert (Hwf : Forall wf_candle [candle_a; candle_b; candle_c])
    by (repeat constructor; vm_compute; discriminate).
  split; [exact Hwf|].
  exact (ha_frame_is_unscaled_range candle_a [candle_b; candle_c] Hwf).
Defined.

(* ------------------------------------------------------------------ *)
(** ** VWAP, EMA and SMA series *)

Lemma vwap_fold_band (lo hi : Q) (l : list candle) :
  (forall c, In c l -> 0 <= volume_or_zero c /\ lo <= typicalPrice c <= hi) ->
  forall cvp cv out, 0 <= cv -> lo * cv <= cvp <= hi * cv ->
  (forall p, In p out -> lo <= vvalue p <= hi) ->
  forall p, In p (snd (fold_left vwap_iter l (cvp, cv, out))) -> lo <= vvalue p <= hi.
Proof.
  induction l as [|c l IH]; intros Hl cvp cv out Hcv Hcvp Hout; [exact Hout|].
  cbn [fold_left]. unfold vwap_iter at 2.
  destruct (Hl c (or_introl eq_refl)) as [Hv Htp].
  set (v := volume_or_zero c) in *. set (tp := typicalPrice c) in *.
  assert (Hlo : lo * v <= tp * v) by nra.
  assert (Hhi : tp * v <= hi * v) by nra.
  apply IH.
  - intros d Hd. apply Hl. now right.
  - lra.
  - split; nra.
  - intros p Hp. apply in_app_or in Hp as [Hp|[Hp|[]]]; [now apply Hout|].
    subst p. cbn [vvalue].
    destruct (Qlt_le_dec 0 (cv + v)) as [Hpos|_]; [|exact Htp].
    split.
    + apply Qle_shift_div_l; [exact Hpos|nra].
    + apply Qle_shift_div_r; [exact Hpos|nra].
Qed.

(** With non-negative volumes, every VWAP point lies between the lowest
    and the highest typical price of the series: the running quotient
    is a weighted mean, and the fallback is a typical price itself. *)
Theorem calculateVWAP_within_typical_band (ohlc : list candle) (lo hi : Q) :
  (forall c, In c ohlc -> 0 <= volume_or_zero c /\ lo <= typicalPrice c <= hi) ->
  forall p, In p (calculateVWAP ohlc) -> lo <= vvalue p <= hi.
Proof.
  intros Hl p Hp. unfold calculateVWAP in Hp. destruct ohlc as [|c0 l]; [destruct Hp|].
  revert p Hp. apply vwap_fold_band; [exact Hl|apply Qle_refl|lra|intros p []].
Qed.

Lemma calculateVWAP_within_typical_band_witness :
  (forall c, In c [candle_a; candle_b; candle_c] ->
     0 <= volume_or_zero c /\ 100 <= typicalPrice c <= 320 # 3) /\
  forall p, In p (calculateVWAP [candle_a; candle_b; candle_c]) -> 100 <= vvalue p <= 320 # 3.
Proof.
  assert (H : forall c, In c [candle_a; candle_b; candle_c] ->
                0 <= volume_or_zero c /\ 100 <= typicalPrice c <= 320 # 3).
  { intros c [<-|[<-|[<-|[]]]]; vm_compute; repeat split; discriminate. }
  split; [exact H|].
  exact (calculateVWAP_within_typical_band [candle_a; candle_b; candle_c] 100 (320 # 3) H).
Defined.

Lemma ema_fold_shape (m : Q) (l : list candle) : forall idx ema out,
  exists ema' rest,
    fold_left (ema_iter m) l (idx, ema, out) = ((idx + List.length l)%nat, ema', out ++ rest) /\
    map vtime rest = map time l.
Proof.
  induction l as [|c l IH]; intros idx ema out.
  - exists ema, []. rewrite Nat.add_0_r, app_nil_r. split; reflexivity.
  - cbn [fold_left]. unfold ema_iter at 2.
    set (e := if Nat.eqb idx 0 then close c else (close c - ema) * m + ema).
    destruct (IH (S idx) e (out ++ [mkVWAP (time c) e])) as (ema' & rest & Hf & Hm).
    exists ema', (mkVWAP (time c) e :: rest). rewrite Hf, <- app_assoc.
    split; [f_equal; f_equal; simpl; lia|]. simpl. now rewrite Hm.
Qed.

(** The EMA series has one point per candle, with the candle's time,
    and starts at the first close. *)
Theorem calculateEMA_shape (period : nat) (ohlc : list candle) :
  map vtime (calculateEMA period ohlc) = map time ohlc /\
  hd_error (calculateEMA period ohlc) = option_map (fun c => mkVWAP (time c) (close c)) (hd_error ohlc).
Proof.
  destruct ohlc as [|c0 l]; [split; reflexivity|].
  destruct (ema_fold_shape (2 / (inject_nat period + 1)) l 1 (close c0)
              [mkVWAP (time c0) (close c0)]) as (ema' & rest & Hf & Hm).
  assert (E : calculateEMA period (c0 :: l) = mkVWAP (time c0) (close c0) :: rest).
  { unfold calculateEMA. cbn [fold_left]. unfold ema_iter at 2. cbn [Nat.eqb app].
    rewrite Hf. reflexivity. }
  rewrite E. simpl. rewrite Hm. split; reflexivity.
Qed.

Lemma ema_fold_band (m lo hi : Q) (l : list candle) :
  0 <= m <= 1 -> (forall c, In c l -> lo <= close c <= hi) ->
  forall idx ema out, lo <= ema <= hi -> (forall p, In p out -> lo <= vvalue p <= hi) ->
  forall p, In p (let '(_, _, o) := fold_left (ema_iter m) l (idx, ema, out) in o) ->
    lo <= vvalue p <= hi.
Proof.
  intros Hm. induction l as [|c l IH]; intros Hl idx ema out He Hout; [exact Hout|].
  cbn [fold_left]. unfold ema_iter at 2.
  assert (Hc := Hl c (or_introl eq_refl)).
  assert (Hb : lo <= (if Nat.eqb idx 0 then close c else (close c - ema) * m + ema) <= hi).
  { destruct (Nat.eqb idx 0); [exact Hc|split; nra]. }
  apply IH; [intros d Hd; apply Hl; now right|exact Hb|].
  intros p Hp. apply in_app_or in Hp as [Hp|[<-|[]]]; [now apply Hout|exact Hb].
Qed.

(** For a period of at least one, the multiplier [2 / (period + 1)] is
    at most [1], so every EMA value stays between the lowest and the
    highest close. *)
Theorem calculateEMA_within_close_band (period : nat) (ohlc : list candle) (lo hi : Q) :
  (1 <= period)%nat ->
  (forall c, In c ohlc -> lo <= close c <= hi) ->
  forall p, In p (calculateEMA period ohlc) -> lo <= vvalue p <= hi.
Proof.
  intros Hp Hl p Hin. destruct ohlc as [|c0 l]; [destruct Hin|].
  unfold calculateEMA in Hin.
  assert (Hm : 0 <= 2 / (inject_nat period + 1) <= 1).
  { assert (Hn : 1 <= inject_nat period).
    { unfold inject_nat. change 1 with (inject_Z 1). rewrite <- Zle_Qle. lia. }
    split.
    - apply Qle_shift_div_l; lra.
    - apply Qle_shift_div_r; lra. }
  revert p Hin. apply ema_fold_band with (lo := lo) (hi := hi); auto.
  - apply Hl. now left.
  - intros p [].
Qed.

Lemma calculateEMA_within_close_band_witness :
  (1 <= 3)%nat /\
  (forall c, In c [candle_a; candle_b; candle_c] -> 100 <= close c <= 110) /\
  forall p, In p (calculateEMA 3 [candle_a; candle_b; candle_c]) -> 100 <= vvalue p <= 110.
Proof.
  assert (H : forall c, In c [candle_a; candle_b; candle_c] -> 100 <= close c <= 110).
  { intros c [<-|[<-|[<-|[]]]]; vm_compute; split; discriminate. }
  split; [lia|split; [exact H|]].
  exact (calculateEMA_within_close_band 3 [candle_a; candle_b; candle_c] 100 110
           ltac:(lia) H).
Defined.

Lemma map_skipn_nth {A B : Type} (f : A -> B) (d : A) (l : list A) : forall k,
  map f (skipn k l) = map (fun i => f (nth i l d)) (seq k (List.length l - k)).
Proof.
  induction l as [|a l IH]; intro k.
  - destruct k; reflexivity.
  - destruct k as [|k].
    + cbn [skipn List.length]. rewrite Nat.sub_0_r. cbn [seq map nth].
      f_equal. rewrite <- seq_shift, map_map.
      pose proof (IH 0%nat) as H0. cbn [skipn] in H0. rewrite H0, Nat.sub_0_r. reflexivity.
    + cbn [skipn List.length]. replace (S (List.length l) - S k)%nat with (List.length l - k)%nat by lia.
      rewrite IH, <- seq_shift, map_map. reflexivity.
Qed.

(** Among whole-number periods, [calculateSMA] throws exactly for the
    period [0], on any series; a period [k >= 1] gives one point for
    each candle from index [k - 1] on, with that candle's time (none when
    the series is shorter than [k]). *)
Theorem calculateSMA_points (period : nat) (ohlc : list candle) :
  (calculateSMA period ohlc = None <-> period = 0%nat) /\
  forall pts, calculateSMA period ohlc = Some pts ->
    map vtime pts = map time (skipn (period - 1) ohlc).
Proof.
  unfold calculateSMA. destruct (Nat.ltb (List.length ohlc) period) eqn:Elt.
  - apply Nat.ltb_lt in Elt. split.
    + split; [discriminate|intros ->; lia].
    + intros pts E. injection E as <-. rewrite skipn_all2 by lia. reflexivity.
  - apply Nat.ltb_ge in Elt. destruct period as [|p].
    + split; [tauto|discriminate].
    + split; [split; discriminate|].
      intros pts E. injection E as <-. rewrite map_map. cbn [vtime].
      rewrite (map_skipn_nth time dummy_candle). f_equal. f_equal. lia.
Qed.

Lemma sma_window_sum_band (ohlc : list candle) (lo hi : Q) (k : nat) : forall a s,
  (forall j, (a <= j < a + k)%nat -> lo <= close (nth j ohlc dummy_candle) <= hi) ->
  s + inject_nat k * lo <=
    fold_left (fun sum j => sum + close (nth j ohlc dummy_candle)) (seq a k) s
  <= s + inject_nat k * hi.
Proof.
  induction k as [|k IH]; intros a s Hj.
  - cbn [seq fold_left]. unfold inject_nat. change (inject_Z (Z.of_nat 0)) with 0. lra.
  - cbn [seq fold_left].
    assert (Ha := Hj a ltac:(lia)).
    assert (IH' := IH (S a) (s + close (nth a ohlc dummy_candle))
                      ltac:(intros j Hj'; apply Hj; lia)).
    assert (Hk : inject_nat (S k) == inject_nat k + 1).
    { unfold inject_nat. rewrite Nat2Z.inj_succ. unfold Z.succ. rewrite inject_Z_plus.
      reflexivity. }
    rewrite Hk. nra.
Qed.

(** For a positive period, every SMA value is the mean of [period]
    closes, so it stays between the lowest and the highest close. *)
Theorem calculateSMA_within_close_band (period : nat) (ohlc : list candle) (lo hi : Q) pts :
  (forall c, In c ohlc -> lo <= close c <= hi) ->
  calculateSMA period ohlc = Some pts ->
  forall p, In p pts -> lo <= vvalue p <= hi.
Proof.
  intros Hl E p Hp. unfold calculateSMA in E.
  destruct (Nat.ltb (List.length ohlc) period) eqn:Elt.
  - injection E as <-. destruct Hp.
  - apply Nat.ltb_ge in Elt. destruct period as [|k]; [discriminate|].
    injection E as <-. apply in_map_iff in Hp as [i [<- Hi]]. apply in_seq in Hi.
    cbn [vvalue]. unfold sma_window_sum.
    assert (Hb := sma_window_sum_band ohlc lo hi (S k) (i + 1 - S k) 0
                    ltac:(intros j Hj; apply Hl; apply nth_In; lia)).
    assert (Hn : 0 < inject_nat (S k)) by (unfold inject_nat; change 0 with (inject_Z 0); rewrite <- Zlt_Qlt; lia).
    split.
    + apply Qle_shift_div_l; [exact Hn|nra].
    + apply Qle_shift_div_r; [exact Hn|nra].
Qed.

Lemma calculateSMA_within_close_band_witness :
  (forall c, In c [candle_a; candle_b; candle_c] -> 100 <= close c <= 110) /\
  calculateSMA 2 [candle_a; candle_b; candle_c]
    = Some [mkVWAP 1700003600000 (210 # 2); mkVWAP 1700007200000 (210 # 2)] /\
  forall p, In p [mkVWAP 1700003600000 (210 # 2); mkVWAP 1700007200000 (210 # 2)] ->
    100 <= vvalue p <= 110.
Proof.
  assert (H : forall c, In c [candle_a; candle_b; candle_c] -> 100 <= close c <= 110).
  { intros c [<-|[<-|[<-|[]]]]; vm_compute; split; discriminate. }
  assert (E : calculateSMA 2 [candle_a; candle_b; candle_c]
                = Some [mkVWAP 1700003600000 (210 # 2); mkVWAP 1700007200000 (210 # 2)])
    by (vm_compute; reflexivity).
  split; [exact H|split; [exact E|]].
  exact (calculateSMA_within_close_band 2 [candle_a; candle_b; candle_c] 100 110 _ H E).
Defined.

(* ------------------------------------------------------------------ *)
(** ** Geometry of the plot *)

Lemma inject_nat_le (a b : nat) : (a <= b)%nat -> inject_nat a <= inject_nat b.
Proof. intro H. unfold inject_nat. rewrite <- Zle_Qle. lia. Qed.

Lemma inject_nat_nonneg (a : nat) : 0 <= inject_nat a.
Proof. unfold inject_nat. change 0 with (inject_Z 0). rewrite <- Zle_Qle. lia. Qed.

Lemma inject_nat_pos (a : nat) : (0 < a)%nat -> 0 < inject_nat a.
Proof. intro H. unfold inject_nat. change 0 with (inject_Z 0). rewrite <- Zlt_Qlt. lia. Qed.

Lemma inject_nat_S (a : nat) : inject_nat (S a) == inject_nat a + 1.
Proof.
  unfold inject_nat. rewrite Nat2Z.inj_succ. unfold Z.succ. rewrite inject_Z_plus.
  reflexivity.
Qed.

(** The centre of slot [i] of [n] equal slots across the plot width. *)
Lemma centre_x_in_plot (dims : ChartDimensions) (n i : nat) :
  (i < n)%nat -> 0 <= chartWidth dims ->
  margin_left dims <=
    margin_left dims + inject_nat i * (chartWidth dims / inject_nat n)
    + (chartWidth dims / inject_nat n) / 2
  <= margin_left dims + chartWidth dims.
Proof.
  intros Hi Hw.
  assert (HN : 0 < inject_nat n) by (apply inject_nat_pos; lia).
  assert (HI : inject_nat i + 1 <= inject_nat n)
    by (rewrite <- inject_nat_S; apply inject_nat_le; lia).
  assert (HI0 := inject_nat_nonneg i).
  assert (Hs : 0 <= chartWidth dims / inject_nat n)
    by (apply Qle_shift_div_l; [exact HN|lra]).
  assert (Hsn : inject_nat n * (chartWidth dims / inject_nat n) == chartWidth dims)
    by (apply Qmult_div_r; lra).
  set (s := chartWidth dims / inject_nat n) in *. clearbody s.
  set (N := inject_nat n) in *. set (I := inject_nat i) in *.
  qdiv_lits. split; nra.
Qed.

(** The vertical position of a price inside the frame lies in the plot. *)
Lemma price_y_in_band (dims : ChartDimensions) (pr : PriceRange) (v : Q) :
  0 < priceRange pr -> priceRange pr == maxPrice pr - minPrice pr ->
  minPrice pr <= v <= maxPrice pr -> 0 <= chartHeight dims ->
  margin_top dims <= price_y dims pr v <= margin_top dims + chartHeight dims.
Proof.
  intros Hr Hre Hv Hh. unfold price_y.
  assert (Ht : 0 <= (maxPrice pr - v) / priceRange pr <= 1).
  { split; [apply Qle_shift_div_l; lra|apply Qle_shift_div_r; lra]. }
  set (t := (maxPrice pr - v) / priceRange pr) in *. clearbody t. split; nra.
Qed.

Lemma in_mapi_from {A B : Type} (f : nat -> A -> B) (d : A) (l : list A) : forall k y,
  In y (mapi_from f k l) -> exists i, (i < List.length l)%nat /\ y = f (k + i)%nat (nth i l d).
Proof.
  induction l as [|a l IH]; intros k y H; [destruct H|].
  destruct H as [<-|H].
  - exists 0%nat. split; [simpl; lia|]. rewrite Nat.add_0_r. reflexivity.
  - destruct (IH (S k) y H) as [i [Hi ->]]. exists (S i). split; [simpl; lia|].
    rewrite Nat.add_succ_r. reflexivity.
Qed.

(** The frame [calculatePriceRange] gives without scale options holds
    every high and low of the series. *)
Lemma unscaled_frame (ohlc : list candle) (pr : PriceRange) :
  calculatePriceRange ohlc no_scale = Some pr ->
  priceRange pr == maxPrice pr - minPrice pr /\
  forall c, In c ohlc ->
    minPrice pr <= low c <= maxPrice pr /\ minPrice pr <= high c <= maxPrice pr.
Proof.
  intro E. destruct ohlc as [|c cs]; [discriminate|].
  destruct (js_spreads_nonempty c cs) as (mn & mx & E1 & E2).
  rewrite (calculatePriceRange_unscaled _ no_scale mn mx eq_refl eq_refl eq_refl eq_refl E1 E2)
    in E.
  injection E as <-. cbn [minPrice maxPrice priceRange]. split; [reflexivity|].
  apply js_min_spread_spec in E1 as [_ H1]. apply js_max_spread_spec in E2 as [_ H2].
  intros d Hd.
  assert (Hl : In (low d) (prices_of (c :: cs))) by (apply in_prices_of; eauto).
  assert (Hh : In (high d) (prices_of (c :: cs))) by (apply in_prices_of; eauto).
  repeat split; auto.
Qed.

(* ------------------------------------------------------------------ *)
(** ** Shapes drawn inside the plot *)

(** Drawn in the frame [calculatePriceRange] gives without scale
    options, every wick of the candlestick chart lies in the plot
    rectangle (the path commands of the trace; the bodies, at least one
    pixel high, are rectangles). *)
Theorem candlestick_wicks_in_plot (dims : ChartDimensions) (pr : PriceRange)
  (colors : BarColors) (ohlc : list candle) :
  calculatePriceRange ohlc no_scale = Some pr -> 0 < priceRange pr ->
  0 <= chartWidth dims -> 0 <= chartHeight dims ->
  Forall (in_plot dims) (candlestick_render dims pr colors ohlc).
Proof.
  intros E Hr Hw Hh. destruct (unscaled_frame ohlc pr E) as [Hre Hin].
  apply Forall_forall. intros cmd Hcmd. unfold candlestick_render in Hcmd.
  apply in_concat in Hcmd as [cs [Hcs Hcmd]].
  apply (in_mapi_from _ dummy_candle) in Hcs as [i [Hi ->]].
  assert (Hc := Hin _ (nth_In ohlc dummy_candle Hi)).
  unfold candle_cmds in Hcmd. cbv beta zeta in Hcmd.
  apply in_app_or in Hcmd as [Hcmd|Hcmd].
  - cbn [In] in Hcmd.
    repeat destruct Hcmd as [<-|Hcmd]; try destruct Hcmd; cbn [in_plot]; try exact I;
      (split; [apply centre_x_in_plot; [simpl; lia|exact Hw]|apply price_y_in_band; tauto]).
  - destruct (border colors) as [b|]; [destruct (String.eqb b EmptyString)|];
      cbn [In] in Hcmd; repeat destruct Hcmd as [<-|Hcmd]; try destruct Hcmd; exact I.
Qed.

Lemma candlestick_wicks_in_plot_witness :
  calculatePriceRange [candle_a; candle_b; candle_c] no_scale = Some (mkPriceRange 90 120 30) /\
  0 < priceRange (mkPriceRange 90 120 30) /\
  0 <= chartWidth dims_800x600 /\ 0 <= chartHeight dims_800x600 /\
  Forall (in_plot dims_800x600)
    (candlestick_render dims_800x600 (mkPriceRange 90 120 30) no_colors
       [candle_a; candle_b; candle_c]).
Proof.
  assert (E : calculatePriceRange [candle_a; candle_b; candle_c] no_scale
              = Some (mkPriceRange 90 120 30)) by (vm_compute; reflexivity).
  assert (H1 : 0 < priceRange (mkPriceRange 90 120 30)) by (vm_compute; reflexivity).
  assert (H2 : 0 <= chartWidth dims_800x600) by (vm_compute; discriminate).
  assert (H3 : 0 <= chartHeight dims_800x600) by (vm_compute; discriminate).
  split; [exact E|split; [exact H1|split; [exact H2|split; [exact H3|]]]].
  exact (candlestick_wicks_in_plot dims_800x600 _ no_colors _ E H1 H2 H3).
Defined.

(** The Heikin-Ashi renderer draws in the frame of the smoothed series
    it recomputes, so its wicks stay inside the plot rectangle whatever
    the scale options: they never reach the frame [drawChart] computes. *)
Theorem ha_wicks_in_plot (dims : ChartDimensions) (colors : BarColors)
  (candles : list candle) (fr : PriceRange) :
  ha_frame (calculateHeikinAshi candles) = Some fr -> 0 < priceRange fr ->
  0 <= chartWidth dims -> 0 <= chartHeight dims ->
  Forall (in_plot dims) (ha_render dims colors candles).
Proof.
  intros E Hr Hw Hh. unfold ha_render. cbv zeta. rewrite E.
  set (haData := calculateHeikinAshi candles) in *.
  unfold ha_frame in E.
  destruct (js_min_spread (prices_of haData)) as [mn|] eqn:E1; [|discriminate].
  destruct (js_max_spread (prices_of haData)) as [mx|] eqn:E2; [|discriminate].
  injection E as <-.
  apply js_min_spread_spec in E1 as [_ Hmn]. apply js_max_spread_spec in E2 as [_ Hmx].
  assert (Hin : forall d, In d haData ->
            mn <= low d <= mx /\ mn <= high d <= mx).
  { intros d Hd.
    assert (Hl : In (low d) (prices_of haData)) by (apply in_prices_of; eauto).
    assert (Hh' : In (high d) (prices_of haData)) by (apply in_prices_of; eauto).
    split; split; auto. }
  apply Forall_forall. intros cmd Hcmd.
  apply in_concat in Hcmd as [cs [Hcs Hcmd]].
  apply (in_mapi_from _ dummy_candle) in Hcs as [i [Hi ->]].
  assert (Hc := Hin _ (nth_In haData dummy_candle Hi)).
  unfold ha_candle_cmds in Hcmd. cbv beta zeta in Hcmd.
  cbn [In] in Hcmd.
  repeat destruct Hcmd as [<-|Hcmd]; try destruct Hcmd; cbn [in_plot]; try exact I;
    (split; [apply centre_x_in_plot; [simpl; lia|exact Hw]
            |apply price_y_in_band; cbn [priceRange maxPrice minPrice] in *;
             [exact Hr|apply Qeq_refl|tauto|exact Hh]]).
Qed.

Lemma ha_wicks_in_plot_witness :
  ha_frame (calculateHeikinAshi [candle_a; candle_b; candle_c]) = Some (mkPriceRange 90 120 30) /\
  0 < priceRange (mkPriceRange 90 120 30) /\
  0 <= chartWidth dims_800x600 /\ 0 <= chartHeight dims_800x600 /\
  Forall (in_plot dims_800x600) (ha_render dims_800x600 no_colors [candle_a; candle_b; candle_c]).
Proof.
  assert (E : ha_frame (calculateHeikinAshi [candle_a; candle_b; candle_c])
              = Some (mkPriceRange 90 120 30)) by (vm_compute; reflexivity).
  assert (H1 : 0 < priceRange (mkPriceRange 90 120 30)) by (vm_compute; reflexivity).
  assert (H2 : 0 <= chartWidth dims_800x600) by (vm_compute; discriminate).
  assert (H3 : 0 <= chartHeight dims_800x600) by (vm_compute; discriminate).
  split; [exact E|split; [exact H1|split; [exact H2|split; [exact H3|]]]].
  exact (ha_wicks_in_plot dims_800x600 no_colors _ _ E H1 H2 H3).
Defined.

Lemma mapi_from_length {A B : Type} (f : nat -> A -> B) (l : list A) : forall k,
  List.length (mapi_from f k l) = List.length l.
Proof. induction l as [|a l IH]; intro k; simpl; [reflexivity|now rewrite IH]. Qed.

Lemma nth_mapi_from {A B : Type} (f : nat -> A -> B) (d : A) (e : B) (l : list A) :
  forall k i, (i < List.length l)%nat -> nth i (mapi_from f k l) e = f (k + i)%nat (nth i l d).
Proof.
  induction l as [|a l IH]; intros k i Hi; [simpl in Hi; lia|].
  destruct i as [|i]; cbn [mapi_from nth].
  - now rewrite Nat.add_0_r.
  - rewrite IH by (simpl in Hi; lia). now rewrite Nat.add_succ_r.
Qed.

(** For two candles or more, drawn in the unscaled frame of a series of
    well-formed candles, the line chart stays inside the plot, starts at
    the left edge of the plot and ends at its right edge. *)
Theorem line_path_in_plot (dims : ChartDimensions) (pr : PriceRange)
  (colors : BarColors) (ohlc : list candle) :
  Forall wf_candle ohlc -> (2 <= List.length ohlc)%nat ->
  calculatePriceRange ohlc no_scale = Some pr -> 0 < priceRange pr ->
  0 <= chartWidth dims -> 0 <= chartHeight dims ->
  Forall (in_plot dims) (line_render dims pr colors ohlc) /\
  (exists x, nth 3 (line_render dims pr colors ohlc) Stroke
             = MoveTo x (price_y dims pr (close (nth 0 ohlc dummy_candle))) /\
             x == margin_left dims) /\
  (exists x y, nth (2 + List.length ohlc) (line_render dims pr colors ohlc) Stroke
               = LineTo x y /\ x == margin_left dims + chartWidth dims).
Proof.
  intros Hwf Hn E Hr Hw Hh. destruct (unscaled_frame ohlc pr E) as [Hre Hin].
  rewrite Forall_forall in Hwf.
  assert (HN : 0 < inject_nat (List.length ohlc) - 1).
  { assert (H2 := inject_nat_le 2 _ Hn). change (inject_nat 2) with 2 in H2. lra. }
  assert (Hpts : forall i, (i < List.length ohlc)%nat ->
            nth (3 + i) (line_render dims pr colors ohlc) Stroke
            = line_point_cmd dims pr (chartWidth dims / (inject_nat (List.length ohlc) - 1))
                i (nth i ohlc dummy_candle)).
  { intros i Hi. unfold line_render. cbn [app nth Nat.add]. rewrite app_nth1
      by (rewrite mapi_from_length; exact Hi).
    apply nth_mapi_from; exact Hi. }
  split; [|split].
  - apply Forall_forall. intros cmd Hcmd. unfold line_render in Hcmd.
    apply in_app_or in Hcmd as [Hcmd|Hcmd];
      [cbn [In] in Hcmd; repeat destruct Hcmd as [<-|Hcmd]; try destruct Hcmd; exact I|].
    apply in_app_or in Hcmd as [Hcmd|Hcmd];
      [|cbn [In] in Hcmd; repeat destruct Hcmd as [<-|Hcmd]; try destruct Hcmd; exact I].
    apply (in_mapi_from _ dummy_candle) in Hcmd as [i [Hi ->]].
    set (c := nth i ohlc dummy_candle).
    assert (Hc := Hin c (nth_In ohlc dummy_candle Hi)).
    assert (Hwc := wf_low_le_high c (Hwf c (nth_In ohlc dummy_candle Hi))).
    destruct (Hwf c (nth_In ohlc dummy_candle Hi)) as [Hcl Hch].
    assert (Hy : margin_top dims <= price_y dims pr (close c) <= margin_top dims + chartHeight dims).
    { apply price_y_in_band; try assumption.
      assert (close c <= Qmax (open c) (close c)) by apply Q.le_max_r.
      assert (Qmin (open c) (close c) <= close c) by apply Q.le_min_r. lra. }
    assert (Hx : margin_left dims <=
                 margin_left dims + inject_nat i * (chartWidth dims / (inject_nat (List.length ohlc) - 1))
                 <= margin_left dims + chartWidth dims).
    { assert (HI : inject_nat i <= inject_nat (List.length ohlc) - 1).
      { destruct (List.length ohlc) as [|m] eqn:Em; [lia|].
        rewrite inject_nat_S. assert (H := inject_nat_le i m ltac:(lia)). lra. }
      assert (HI0 := inject_nat_nonneg i).
      assert (Hs : 0 <= chartWidth dims / (inject_nat (List.length ohlc) - 1))
        by (apply Qle_shift_div_l; [exact HN|lra]).
      assert (Hsn : (inject_nat (List.length ohlc) - 1)
                    * (chartWidth dims / (inject_nat (List.length ohlc) - 1)) == chartWidth dims)
        by (apply Qmult_div_r; lra).
      set (s := chartWidth dims / (inject_nat (List.length ohlc) - 1)) in *. clearbody s.
      split; nra. }
    unfold line_point_cmd. rewrite Nat.add_0_l. fold c.
    destruct (Nat.eqb i 0); cbn [in_plot]; split; assumption.
  - pose proof (Hpts 0%nat ltac:(lia)) as H0. cbn [Nat.add] in H0. rewrite H0. unfold line_point_cmd. cbn [Nat.eqb].
    eexists; split; [reflexivity|].
    unfold inject_nat. change (inject_Z (Z.of_nat 0)) with 0. ring.
  - destruct (List.length ohlc) as [|m] eqn:Em; [lia|].
    replace (2 + S m)%nat with (3 + m)%nat by lia.
    rewrite (Hpts m ltac:(lia)). unfold line_point_cmd.
    destruct (Nat.eqb m 0) eqn:Em0; [apply Nat.eqb_eq in Em0; lia|].
    eexists _, _; split; [reflexivity|].
    rewrite inject_nat_S in *. field. lra.
Qed.

Lemma line_path_in_plot_witness :
  Forall wf_candle [candle_a; candle_b; candle_c] /\
  (2 <= List.length [candle_a; candle_b; candle_c])%nat /\
  calculatePriceRange [candle_a; candle_b; candle_c] no_scale = Some (mkPriceRange 90 120 30) /\
  0 < priceRange (mkPriceRange 90 120 30) /\
  0 <= chartWidth dims_800x600 /\ 0 <= chartHeight dims_800x600 /\
  Forall (in_plot dims_800x600)
    (line_render dims_800x600 (mkPriceRange 90 120 30) no_colors [candle_a; candle_b; candle_c]).
Proof.
  assert (W : Forall wf_candle [candle_a; candle_b; candle_c])
    by (repeat constructor; vm_compute; discriminate).
  assert (L : (2 <= List.length [candle_a; candle_b; candle_c])%nat) by (simpl; lia).
  assert (E : calculatePriceRange [candle_a; candle_b; candle_c] no_scale
              = Some (mkPriceRange 90 120 30)) by (vm_compute; reflexivity).
  assert (H1 : 0 < priceRange (mkPriceRange 90 120 30)) by (vm_compute; reflexivity).
  assert (H2 : 0 <= chartWidth dims_800x600) by (vm_compute; discriminate).
  assert (H3 : 0 <= chartHeight dims_800x600) by (vm_compute; discriminate).
  split; [exact W|split; [exact L|split; [exact E|split; [exact H1|split; [exact H2|split; [exact H3|]]]]]].
  exact (proj1 (line_path_in_plot dims_800x600 _ no_colors _ W L E H1 H2 H3)).
Defined.

(* ------------------------------------------------------------------ *)
(** ** Overlays and grid inside the plot *)

Lemma findIndex_time_lt (ohlc : list candle) (t : Z) : forall i,
  findIndex_time ohlc t = Some i -> (i < List.length ohlc)%nat.
Proof.
  induction ohlc as [|c r IH]; intros i H; simpl in H; [discriminate|].
  destruct (Z.eqb (time c) t); [injection H as <-; simpl; lia|].
  destruct (findIndex_time r t) as [j|]; simpl in H; [injection H as <-|discriminate].
  specialize (IH j eq_refl). simpl; lia.
Qed.

Lemma overlay_render_in_plot (dims : ChartDimensions) (pr : PriceRange) (ohlc : list candle)
  (color : string) (dash : list Q) (label : string) (labelDy : Q) (points : list VWAPData) :
  0 < priceRange pr -> priceRange pr == maxPrice pr - minPrice pr ->
  0 <= chartWidth dims -> 0 <= chartHeight dims ->
  (forall p, In p points -> minPrice pr <= vvalue p <= maxPrice pr) ->
  Forall (canvas_in_plot dims) (overlay_render dims pr ohlc color dash label labelDy points).
Proof.
  intros Hr Hre Hw Hh Hp. apply Forall_forall. intros cmd Hcmd.
  unfold overlay_render in Hcmd. destruct points as [|p0 ps]; [destruct Hcmd|].
  apply in_app_or in Hcmd as [Hcmd|Hcmd];
    [cbn [In] in Hcmd; repeat destruct Hcmd as [<-|Hcmd]; try destruct Hcmd; exact I|].
  apply in_app_or in Hcmd as [Hcmd|Hcmd];
    [|cbn [In] in Hcmd; repeat destruct Hcmd as [<-|Hcmd]; try destruct Hcmd; exact I].
  apply in_map_iff in Hcmd as [d [<- Hd]]. cbn [canvas_in_plot].
  apply in_concat in Hd as [cs [Hcs Hd]]. apply in_map_iff in Hcs as [p [<- Hin]].
  unfold overlay_point_cmds in Hd. cbv beta zeta in Hd.
  destruct (findIndex_time ohlc (vtime p)) as [i|] eqn:Ei; [|destruct Hd].
  apply findIndex_time_lt in Ei.
  assert (Hx := centre_x_in_plot dims _ _ Ei Hw).
  assert (Hy := price_y_in_band dims pr (vvalue p) Hr Hre (Hp p Hin) Hh). unfold price_y in Hy.
  destruct (Nat.eqb i 0); destruct Hd as [<-|[]]; cbn [in_plot]; split; assumption.
Qed.

Lemma wf_close_in_frame (c : candle) (mn mx : Q) :
  wf_candle c -> mn <= low c -> high c <= mx -> mn <= close c <= mx.
Proof.
  intros [Hh Hl] H1 H2.
  assert (close c <= Qmax (open c) (close c)) by apply Q.le_max_r.
  assert (Qmin (open c) (close c) <= close c) by apply Q.le_min_r. split; lra.
Qed.

(** In the unscaled frame of well-formed candles with non-negative
    volumes, the VWAP, EMA (period at least one) and SMA lines lie in the
    plot rectangle. *)
Theorem overlays_in_plot (dims : ChartDimensions) (pr : PriceRange) (colors : BarColors)
  (period : nat) (ohlc : list candle) :
  Forall wf_candle ohlc -> Forall (fun c => 0 <= volume_or_zero c) ohlc ->
  (1 <= period)%nat ->
  calculatePriceRange ohlc no_scale = Some pr -> 0 < priceRange pr ->
  0 <= chartWidth dims -> 0 <= chartHeight dims ->
  Forall (canvas_in_plot dims) (vwap_render dims pr colors ohlc) /\
  Forall (canvas_in_plot dims) (ema_render dims pr colors period ohlc) /\
  forall l, sma_render dims pr colors period ohlc = Some l -> Forall (canvas_in_plot dims) l.
Proof.
  intros Hwf Hv Hp E Hr Hw Hh. destruct (unscaled_frame ohlc pr E) as [Hre Hin].
  rewrite Forall_forall in Hwf, Hv.
  assert (Hcl : forall c, In c ohlc -> minPrice pr <= close c <= maxPrice pr).
  { intros c Hc. destruct (Hin c Hc) as [[H1 _] [_ H2]]. now apply wf_close_in_frame; auto. }
  split; [|split].
  - apply overlay_render_in_plot; try assumption.
    intros p Hpt. unfold calculateVWAP in Hpt. destruct ohlc as [|c0 l]; [destruct Hpt|].
    revert p Hpt. apply vwap_fold_band; [|apply Qle_refl|lra|intros p []].
    intros c Hc. split; [now apply Hv|].
    destruct (Hin c Hc) as [[H1 H2] [H3 H4]]. unfold typicalPrice.
    assert (Hc3 := Hcl c Hc).
    split; [apply Qle_shift_div_l|apply Qle_shift_div_r]; try reflexivity; lra.
  - apply overlay_render_in_plot; try assumption.
    intros p Hpt. destruct ohlc as [|c0 l]; [destruct Hpt|].
    unfold calculateEMA in Hpt.
    assert (Hm : 0 <= 2 / (inject_nat period + 1) <= 1).
    { assert (Hn := inject_nat_le 1 period Hp). change (inject_nat 1) with 1 in Hn.
      split; [apply Qle_shift_div_l|apply Qle_shift_div_r]; lra. }
    revert p Hpt. apply ema_fold_band with (lo := minPrice pr) (hi := maxPrice pr); auto.
    + apply Hcl. now left.
    + intros p [].
  - intros l El. unfold sma_render in El.
    destruct (calculateSMA period ohlc) as [pts|] eqn:Es; [|discriminate].
    injection El as <-. apply overlay_render_in_plot; try assumption.
    intros p Hpt. unfold calculateSMA in Es.
    destruct (Nat.ltb (List.length ohlc) period) eqn:Elt.
    + injection Es as <-. destruct Hpt.
    + apply Nat.ltb_ge in Elt. destruct period as [|k]; [discriminate|].
      injection Es as <-. apply in_map_iff in Hpt as [i [<- Hi]]. apply in_seq in Hi.
      cbn [vvalue]. unfold sma_window_sum.
      assert (Hb := sma_window_sum_band ohlc (minPrice pr) (maxPrice pr) (S k) (i + 1 - S k) 0
                      ltac:(intros j Hj; apply Hcl; apply nth_In; lia)).
      assert (Hn : 0 < inject_nat (S k)) by (apply inject_nat_pos; lia).
      split; [apply Qle_shift_div_l|apply Qle_shift_div_r]; try exact Hn; nra.
Qed.

Lemma overlays_in_plot_witness :
  Forall wf_candle [candle_a; candle_b; candle_c] /\
  Forall (fun c => 0 <= volume_or_zero c) [candle_a; candle_b; candle_c] /\
  (1 <= 2)%nat /\
  calculatePriceRange [candle_a; candle_b; candle_c] no_scale = Some (mkPriceRange 90 120 30) /\
  0 < priceRange (mkPriceRange 90 120 30) /\
  0 <= chartWidth dims_800x600 /\ 0 <= chartHeight dims_800x600 /\
  Forall (canvas_in_plot dims_800x600)
    (vwap_render dims_800x600 (mkPriceRange 90 120 30) no_colors [candle_a; candle_b; candle_c]).
Proof.
  assert (W : Forall wf_candle [candle_a; candle_b; candle_c])
    by (repeat constructor; vm_compute; discriminate).
  assert (V : Forall (fun c => 0 <= volume_or_zero c) [candle_a; candle_b; candle_c])
    by (repeat constructor; vm_compute; discriminate).
  assert (E : calculatePriceRange [candle_a; candle_b; candle_c] no_scale
              = Some (mkPriceRange 90 120 30)) by (vm_compute; reflexivity).
  assert (H1 : 0 < priceRange (mkPriceRange 90 120 30)) by (vm_compute; reflexivity).
  assert (H2 : 0 <= chartWidth dims_800x600) by (vm_compute; discriminate).
  assert (H3 : 0 <= chartHeight dims_800x600) by (vm_compute; discriminate).
  split; [exact W|split; [exact V|split; [lia|split; [exact E|split; [exact H1|
    split; [exact H2|split; [exact H3|]]]]]]].
  exact (proj1 (overlays_in_plot dims_800x600 _ no_colors 2 _ W V ltac:(lia) E H1 H2 H3)).
Defined.

Lemma nth_concat_chunks {A B : Type} (f : A -> list B) (k : nat) (l : list A) (a0 : A) (e : B) :
  (forall a, List.length (f a) = k) -> forall i j, (i < List.length l)%nat -> (j < k)%nat ->
  nth (k * i + j) (List.concat (map f l)) e = nth j (f (nth i l a0)) e.
Proof.
  intros Hf. induction l as [|a l IH]; intros i j Hi Hj; [simpl in Hi; lia|].
  cbn [map List.concat]. destruct i as [|i].
  - rewrite Nat.mul_0_r, Nat.add_0_l. apply app_nth1. rewrite Hf; exact Hj.
  - rewrite app_nth2 by (rewrite Hf; nia). rewrite Hf.
    replace (k * S i + j - k)%nat with (k * i + j)%nat by nia. apply IH; simpl in Hi; lia.
Qed.

(** Each row of the grid is four commands. *)
Lemma length_concat_map_4 {A : Type} (f : A -> list DrawCmd) (l : list A) :
  (forall a, List.length (f a) = 4%nat) -> List.length (List.concat (map f l)) = (4 * List.length l)%nat.
Proof.
  intros Hf. induction l as [|a l IH]; [reflexivity|].
  cbn [map List.concat]. rewrite length_app, Hf, IH. cbn [List.length]. lia.
Qed.

(** Unless it is hidden, the grid is eleven vertical lines, at the
    tenths of the plot width from its top to its bottom, then six
    horizontal lines, at the fifths of the plot height from its left to
    its right: seventeen strokes, all inside the plot rectangle. Hidden,
    it draws nothing. *)
Theorem grid_in_plot (dims : ChartDimensions) (gridColor : option string)
  (showGrid : option bool) :
  0 <= chartWidth dims -> 0 <= chartHeight dims ->
  Forall (in_plot dims) (grid_render dims gridColor showGrid) /\
  List.length (filter is_stroke (grid_render dims gridColor showGrid))
    = match showGrid with Some false => 0%nat | _ => 17%nat end /\
  match showGrid with
  | Some false => grid_render dims gridColor showGrid = []
  | _ =>
      List.length (grid_render dims gridColor showGrid) = 70%nat /\
      (forall i, (i <= 10)%nat ->
         nth (3 + 4 * i) (grid_render dims gridColor showGrid) Stroke
           = MoveTo (margin_left dims + (inject_nat i / 10) * chartWidth dims) (margin_top dims) /\
         nth (4 + 4 * i) (grid_render dims gridColor showGrid) Stroke
           = LineTo (margin_left dims + (inject_nat i / 10) * chartWidth dims)
                    (margin_top dims + chartHeight dims)) /\
      (forall j, (j <= 5)%nat ->
         nth (47 + 4 * j) (grid_render dims gridColor showGrid) Stroke
           = MoveTo (margin_left dims) (margin_top dims + (inject_nat j / 5) * chartHeight dims) /\
         nth (48 + 4 * j) (grid_render dims gridColor showGrid) Stroke
           = LineTo (margin_left dims + chartWidth dims)
                    (margin_top dims + (inject_nat j / 5) * chartHeight dims))
  end.
Proof.
  intros Hw Hh.
  assert (Hf : forall (i n : nat) (a : Q), (i <= n)%nat -> 0 < inject_nat n -> 0 <= a ->
             0 <= inject_nat i / inject_nat n * a <= a).
  { intros i n a Hi Hn Ha. assert (H := inject_nat_le _ _ Hi). assert (H0 := inject_nat_nonneg i).
    assert (Ht : 0 <= inject_nat i / inject_nat n <= 1)
      by (split; [apply Qle_shift_div_l|apply Qle_shift_div_r]; lra).
    set (t := inject_nat i / inject_nat n) in *. clearbody t. split; nra. }
  split; [|split; [destruct showGrid as [[|]|]; reflexivity|]].
  - apply Forall_forall. intros cmd Hcmd. unfold grid_render in Hcmd.
    destruct showGrid as [[|]|]; [|destruct Hcmd|];
    (apply in_app_or in Hcmd as [Hcmd|Hcmd];
      [cbn [In] in Hcmd; repeat destruct Hcmd as [<-|Hcmd]; try destruct Hcmd; exact I|];
     apply in_app_or in Hcmd as [Hcmd|Hcmd];
     apply in_concat in Hcmd as [cs [Hcs Hcmd]]; apply in_map_iff in Hcs as [i [<- Hi]];
     apply in_seq in Hi; cbn [In] in Hcmd;
     repeat destruct Hcmd as [<-|Hcmd]; try destruct Hcmd; cbn [in_plot]; try exact I;
     [assert (H := Hf i 10%nat (chartWidth dims) ltac:(lia) ltac:(reflexivity) Hw)
     |assert (H := Hf i 10%nat (chartWidth dims) ltac:(lia) ltac:(reflexivity) Hw)
     |assert (H := Hf i 5%nat (chartHeight dims) ltac:(lia) ltac:(reflexivity) Hh)
     |assert (H := Hf i 5%nat (chartHeight dims) ltac:(lia) ltac:(reflexivity) Hh)];
     change (inject_nat 10) with 10 in H; change (inject_nat 5) with 5 in H;
     split; split; lra).
  - assert (Hshape : showGrid <> Some false ->
      List.length (grid_render dims gridColor showGrid) = 70%nat /\
      (forall i, (i <= 10)%nat ->
         nth (3 + 4 * i) (grid_render dims gridColor showGrid) Stroke
           = MoveTo (margin_left dims + (inject_nat i / 10) * chartWidth dims) (margin_top dims) /\
         nth (4 + 4 * i) (grid_render dims gridColor showGrid) Stroke
           = LineTo (margin_left dims + (inject_nat i / 10) * chartWidth dims)
                    (margin_top dims + chartHeight dims)) /\
      (forall j, (j <= 5)%nat ->
         nth (47 + 4 * j) (grid_render dims gridColor showGrid) Stroke
           = MoveTo (margin_left dims) (margin_top dims + (inject_nat j / 5) * chartHeight dims) /\
         nth (48 + 4 * j) (grid_render dims gridColor showGrid) Stroke
           = LineTo (margin_left dims + chartWidth dims)
                    (margin_top dims + (inject_nat j / 5) * chartHeight dims))).
    { intro Hs.
      assert (Eg : grid_render dims gridColor showGrid =
        [SetStrokeStyle (or_default gridColor "#2b2b43"); SetLineWidth (1 # 2)]
        ++ List.concat (map (fun i =>
             let x := margin_left dims + (inject_nat i / 10) * chartWidth dims in
             [BeginPath; MoveTo x (margin_top dims);
              LineTo x (margin_top dims + chartHeight dims); Stroke]) (seq 0 11))
        ++ List.concat (map (fun i =>
             let y := margin_top dims + (inject_nat i / 5) * chartHeight dims in
             [BeginPath; MoveTo (margin_left dims) y;
              LineTo (margin_left dims + chartWidth dims) y; Stroke]) (seq 0 6))).
      { unfold grid_render. destruct showGrid as [[|]|]; [reflexivity|congruence|reflexivity]. }
      rewrite Eg. split; [reflexivity|split].
      - intros i Hi. split;
        (rewrite app_nth2 by (cbn [List.length]; lia); cbn [List.length];
         rewrite app_nth1 by (rewrite length_concat_map_4 by (intro; reflexivity);
                              rewrite length_seq; lia);
         try replace (3 + 4 * i - 2)%nat with (4 * i + 1)%nat by lia;
         try replace (4 + 4 * i - 2)%nat with (4 * i + 2)%nat by lia;
         rewrite (nth_concat_chunks _ 4 _ 0%nat) by (reflexivity || (rewrite length_seq; lia) || lia);
         rewrite seq_nth by lia; reflexivity).
      - intros j Hj. split;
        (rewrite app_nth2 by (cbn [List.length]; lia); cbn [List.length];
         rewrite app_nth2 by (rewrite length_concat_map_4 by (intro; reflexivity);
                              rewrite length_seq; lia);
         rewrite length_concat_map_4 by (intro; reflexivity); rewrite length_seq;
         try replace (47 + 4 * j - 2 - 4 * 11)%nat with (4 * j + 1)%nat by lia;
         try replace (48 + 4 * j - 2 - 4 * 11)%nat with (4 * j + 2)%nat by lia;
         rewrite (nth_concat_chunks _ 4 _ 0%nat) by (reflexivity || (rewrite length_seq; lia) || lia);
         rewrite seq_nth by lia; reflexivity). }
    destruct showGrid as [[|]|]; [apply Hshape; discriminate|reflexivity|apply Hshape; discriminate].
Qed.

Lemma grid_in_plot_witness :
  0 <= chartWidth dims_800x600 /\ 0 <= chartHeight dims_800x600 /\
  Forall (in_plot dims_800x600) (grid_render dims_800x600 None None) /\
  List.length (grid_render dims_800x600 None None) = 70%nat.
Proof.
  assert (H2 : 0 <= chartWidth dims_800x600) by (vm_compute; discriminate).
  assert (H3 : 0 <= chartHeight dims_800x600) by (vm_compute; discriminate).
  split; [exact H2|split; [exact H3|]].
  destruct (grid_in_plot dims_800x600 None None H2 H3) as (HF & _ & HL & _).
  split; [exact HF|exact HL].
Defined.

(* ------------------------------------------------------------------ *)
(** ** Volume bars and axis labels *)

Lemma hasVolumeData_max_pos (ohlc : list candle) (mv : Q) :
  hasVolumeData ohlc = true -> js_max_spread (map volume_or_zero ohlc) = Some mv -> 0 < mv.
Proof.
  intros Hd Em. apply js_max_spread_spec in Em as [_ Hmax].
  unfold hasVolumeData in Hd. apply existsb_exists in Hd as [c [Hc Hvc]].
  destruct (volume c) as [v|] eqn:Evc; [|discriminate].
  apply negb_true_iff in Hvc.
  assert (Hv : 0 < v).
  { apply Qnot_le_lt. intro H. apply Qle_bool_iff in H. congruence. }
  assert (Hvz : volume_or_zero c == v).
  { unfold volume_or_zero. rewrite Evc. destruct (Qeq_bool v 0) eqn:E; [|reflexivity].
    apply Qeq_bool_eq in E. lra. }
  assert (H := Hmax (volume_or_zero c) (in_map _ _ _ Hc)). lra.
Qed.

(** With non-negative volumes of which one is positive, every volume bar
    stands on the baseline [margin.top + chartHeight + 10 + 0.2 chartHeight]
    and rises at most [0.2 chartHeight] above it. *)
Theorem volume_bars_on_baseline (dims : ChartDimensions) (colors : BarColors)
  (ohlc : list candle) :
  Forall (fun c => 0 <= volume_or_zero c) ohlc -> hasVolumeData ohlc = true ->
  0 <= chartHeight dims ->
  forall x y w h, In (FillRect x y w h) (volume_render dims colors ohlc) ->
    y + h == margin_top dims + chartHeight dims + 10 + chartHeight dims * (2 # 10) /\
    0 <= h <= chartHeight dims * (2 # 10).
Proof.
  intros Hv Hd Hh x y w h Hin. rewrite Forall_forall in Hv.
  unfold volume_render in Hin.
  destruct (js_max_spread (map volume_or_zero ohlc)) as [mv|] eqn:Em; [|destruct Hin].
  assert (Hpos := hasVolumeData_max_pos ohlc mv Hd Em).
  apply js_max_spread_spec in Em as [_ Hmax].
  apply in_concat in Hin as [cs [Hcs Hin]].
  apply (in_mapi_from _ dummy_candle) in Hcs as [i [Hi ->]].
  set (c := nth i ohlc dummy_candle) in *.
  assert (Hc : In c ohlc) by apply nth_In, Hi.
  assert (H0 := Hv c Hc). assert (H1 := Hmax _ (in_map _ _ _ Hc)).
  unfold volume_bar_cmds in Hin. cbv beta zeta in Hin. cbn [In] in Hin.
  destruct Hin as [E|[E|[]]]; [discriminate|]. injection E as _ <- _ <-.
  assert (Ht : 0 <= volume_or_zero c / mv <= 1)
    by (split; [apply Qle_shift_div_l|apply Qle_shift_div_r]; lra).
  set (t := volume_or_zero c / mv) in *. clearbody t.
  split; [ring|split; nra].
Qed.

Lemma volume_bars_on_baseline_witness :
  Forall (fun c => 0 <= volume_or_zero c) [candle_a; candle_b; candle_c] /\
  hasVolumeData [candle_a; candle_b; candle_c] = true /\
  0 <= chartHeight dims_800x600 /\
  forall x y w h,
    In (FillRect x y w h) (volume_render dims_800x600 no_colors [candle_a; candle_b; candle_c]) ->
    y + h == margin_top dims_800x600 + chartHeight dims_800x600 + 10
             + chartHeight dims_800x600 * (2 # 10) /\
    0 <= h <= chartHeight dims_800x600 * (2 # 10).
Proof.
  assert (V : Forall (fun c => 0 <= volume_or_zero c) [candle_a; candle_b; candle_c])
    by (repeat constructor; vm_compute; discriminate).
  assert (D : hasVolumeData [candle_a; candle_b; candle_c] = true) by reflexivity.
  assert (H3 : 0 <= chartHeight dims_800x600) by (vm_compute; discriminate).
  split; [exact V|split; [exact D|split; [exact H3|]]].
  exact (volume_bars_on_baseline dims_800x600 no_colors _ V D H3).
Defined.

Lemma count_text_app (l1 l2 : list DrawCmd) :
  count_text (l1 ++ l2) = (count_text l1 + count_text l2)%nat.
Proof. unfold count_text. now rewrite filter_app, length_app. Qed.

Lemma count_text_concat_map {A : Type} (f : A -> list DrawCmd) (l : list A) :
  (forall a, count_text (f a) = 1%nat) -> count_text (List.concat (map f l)) = List.length l.
Proof.
  intro Hf. induction l as [|a l IH]; [reflexivity|].
  cbn [map List.concat]. rewrite count_text_app, Hf, IH. reflexivity.
Qed.

Lemma step_indices_length (fuel i s n : nat) :
  (1 <= s)%nat -> (List.length (step_indices fuel i s n) * s <= n - i + s - 1)%nat.
Proof.
  intro Hs. revert i. induction fuel as [|f IH]; intro i; cbn [step_indices]; [simpl; lia|].
  destruct (Nat.ltb i n) eqn:E; cbn [List.length]; [|lia].
  apply Nat.ltb_lt in E. specialize (IH (i + s)%nat).
  set (L := List.length (step_indices f (i + s) s n)) in *. rewrite Nat.mul_succ_l.
  destruct (Nat.le_gt_cases n (i + s)) as [Hle|Hgt].
  - replace (n - (i + s))%nat with 0%nat in IH by lia.
    destruct L as [|L']; [lia|]. rewrite Nat.mul_succ_l in IH. lia.
  - lia.
Qed.

(** The time axis has at most eleven labels, whatever the length of
    the series: the step [max(1, floor(n / 6))] keeps the count near six. *)
Theorem drawTimeLabels_at_most_11 (k : Clock) (dims : ChartDimensions)
  (textColor gridColor : option string) (showTimeAxis : option bool) (ohlc : list candle) :
  (count_text (drawTimeLabels k dims textColor gridColor showTimeAxis ohlc) <= 11)%nat.
Proof.
  unfold drawTimeLabels. destruct ohlc as [|c cs]; [cbn; lia|].
  destruct showTimeAxis as [[|]|]; try (cbn; lia);
  (rewrite count_text_app, count_text_concat_map by reflexivity;
   change (count_text [SetFillStyle _; SetFont _; SetTextAlign _]) with 0%nat; cbn [Nat.add];
   set (n := List.length (c :: cs)); set (q := Nat.div n 6);
   assert (Hq1 : (6 * q <= n)%nat) by (apply Nat.Div0.mul_div_le);
   assert (Hq2 : (n < 6 * q + 6)%nat)
     by (pose proof (Nat.div_mod n 6 ltac:(lia)); pose proof (Nat.mod_upper_bound n 6 ltac:(lia)); lia);
   assert (HL := step_indices_length n 0 (Nat.max 1 q) n ltac:(lia));
   set (L := List.length (step_indices n 0 (Nat.max 1 q) n)) in *;
   destruct (Nat.max_spec 1 q) as [[H1 E]|[H1 E]]; rewrite E in HL;
   [destruct (Nat.le_gt_cases 12 L) as [H12|H12]; [|lia];
    assert (12 * q <= L * q)%nat by (apply Nat.mul_le_mono_r; exact H12); lia
   |rewrite Nat.mul_1_r in HL; lia]).
Qed.

(** The price axis has six labels, for the prices
    [minPrice + (i / 5) priceRange], [i = 0 .. 5]; in a frame with
    [priceRange = maxPrice - minPrice], label [i] and its tick sit at the
    height [margin.top + (1 - i / 5) chartHeight]: evenly spaced from the
    bottom of the plot ([minPrice]) to its top ([maxPrice]). *)
Theorem price_labels_evenly_spaced (dims : ChartDimensions) (pr : PriceRange)
  (textColor gridColor : option string) (i : nat) :
  (i <= 5)%nat -> ~ priceRange pr == 0 -> priceRange pr == maxPrice pr - minPrice pr ->
  List.length (drawPriceLabels dims pr textColor gridColor) = 45%nat /\
  exists y,
    nth (3 + 7 * i) (drawPriceLabels dims pr textColor gridColor) Stroke
      = FillText (formatPrice (minPrice pr + (inject_nat i / 5) * priceRange pr))
                 (margin_left dims - 10) (y + 4) /\
    nth (7 + 7 * i) (drawPriceLabels dims pr textColor gridColor) Stroke
      = MoveTo (margin_left dims - 5) y /\
    y == margin_top dims + (1 - inject_nat i / 5) * chartHeight dims.
Proof.
  intros Hi Hr Hre. split; [reflexivity|].
  assert (Hn : forall j, (j < 7)%nat ->
            nth (3 + (7 * i + j)) (drawPriceLabels dims pr textColor gridColor) Stroke
            = nth j (price_label_cmds dims pr gridColor i) Stroke).
  { intros j Hj. unfold drawPriceLabels.
    rewrite app_nth2 by (simpl; lia).
    replace (3 + (7 * i + j) - List.length [SetFillStyle (or_default textColor "#ffffff");
               SetFont DEFAULT_FONT; SetTextAlign "right"])%nat with (7 * i + j)%nat by (simpl; lia).
    rewrite (nth_concat_chunks _ 7 _ 0%nat) by (reflexivity || (rewrite length_seq; lia) || lia).
    rewrite seq_nth by lia. reflexivity. }
  pose proof (Hn 0%nat ltac:(lia)) as H0. pose proof (Hn 4%nat ltac:(lia)) as H4.
  rewrite Nat.add_0_r in H0. replace (3 + (7 * i + 4))%nat with (7 + 7 * i)%nat in H4 by lia.
  rewrite H0, H4. unfold price_label_cmds. cbn [nth].
  eexists. split; [reflexivity|split; [reflexivity|]].
  set (t := inject_nat i / 5).
  assert (E : maxPrice pr - (minPrice pr + t * priceRange pr) == (1 - t) * priceRange pr)
    by (rewrite Hre; ring).
  rewrite E. field_simplify_eq; [reflexivity|exact Hr].
Qed.

Lemma price_labels_evenly_spaced_witness :
  (2 <= 5)%nat /\ ~ priceRange (mkPriceRange 90 120 30) == 0 /\
  priceRange (mkPriceRange 90 120 30) == maxPrice (mkPriceRange 90 120 30) - minPrice (mkPriceRange 90 120 30) /\
  List.length (drawPriceLabels dims_800x600 (mkPriceRange 90 120 30) None None) = 45%nat.
Proof.
  assert (H1 : ~ priceRange (mkPriceRange 90 120 30) == 0) by (vm_compute; discriminate).
  assert (H2 : priceRange (mkPriceRange 90 120 30)
               == maxPrice (mkPriceRange 90 120 30) - minPrice (mkPriceRange 90 120 30))
    by (vm_compute; reflexivity).
  split; [lia|split; [exact H1|split; [exact H2|]]].
  exact (proj1 (price_labels_evenly_spaced dims_800x600 _ None None 2 ltac:(lia) H1 H2)).
Defined.

(* ------------------------------------------------------------------ *)
(** ** Canvas state left behind by the layers *)

Lemma stroke_dashes_length (d : list Q) (l : list CanvasCmd) :
  List.length (stroke_dashes_from d l)
  = List.length (filter (fun c => match c with Draw x => is_stroke x | _ => false end) l).
Proof.
  revert d. induction l as [|c l IH]; intro d; [reflexivity|].
  destruct c as [x|s|a]; [destruct x|..];
    cbn [stroke_dashes_from filter is_stroke List.length]; rewrite ?IH; reflexivity.
Qed.

Lemma stroke_dashes_no_setdash (d : list Q) (l : list CanvasCmd) :
  (forall c, In c l -> match c with SetLineDash _ => False | _ => True end) ->
  Forall (fun x => x = d) (stroke_dashes_from d l).
Proof.
  induction l as [|c l IH]; intro H; [constructor|].
  assert (IH' := IH (fun c' Hc' => H c' (or_intror Hc'))).
  destruct c as [x|s|a].
  - destruct x; cbn [stroke_dashes_from]; try constructor; auto.
  - exfalso. exact (H _ (or_introl eq_refl)).
  - exact IH'.
Qed.

(** When the VWAP line is drawn and neither an EMA line nor a level
    follows (EMA off, or on with an undefined or [0] period, which is
    falsy), the dash [[5, 5]] the VWAP renderer sets is never reset:
    every stroke after it, the grid and the axes included, is dashed
    (at least nine strokes: the VWAP line, the two axis lines and the
    six price ticks). *)
Theorem vwap_dash_persists (k : Clock) (cfg : LayerConfig) (dims : ChartDimensions)
  (pr : PriceRange) (ohlc : list candle) :
  cfg_showVWAP cfg = true -> hasVolumeData ohlc = true ->
  (cfg_showEMA cfg = false \/ cfg_emaPeriod cfg = None \/ cfg_emaPeriod cfg = Some 0%nat) ->
  (cfg_levels cfg = None \/ cfg_levels cfg = Some []) ->
  Forall (fun d => d = [5; 5]) (stroke_dashes (drawChart_layers k cfg dims pr ohlc)) /\
  (9 <= List.length (stroke_dashes (drawChart_layers k cfg dims pr ohlc)))%nat.
Proof.
  intros Hv Hvol He Hl.
  assert (Hne : calculateVWAP ohlc <> []).
  { destruct ohlc as [|c0 cs]; [discriminate|].
    change (calculateVWAP (c0 :: cs)) with (snd (fold_left vwap_iter (c0 :: cs) (0, 0, []))).
    destruct (vwap_fold_inv (c0 :: cs) 0 0 []) as (rest & Hr & Hlen & _).
    rewrite Hr. destruct rest; [discriminate Hlen|discriminate]. }
  assert (HA : (8 <= List.length (filter (fun c => match c with Draw x => is_stroke x | _ => false end)
                 (map Draw (axes_render k dims pr (cfg_borderColor cfg) (cfg_textColor cfg)
                    (cfg_gridColor cfg) (cfg_showTimeAxis cfg) ohlc))))%nat).
  { unfold axes_render, drawPriceLabels. rewrite !map_app, !filter_app, !length_app.
    set (T := drawTimeLabels _ _ _ _ _ _). cbn. lia. }
  assert (HG : exists G', match cfg_showGrid cfg with
                          | Some false => []
                          | _ => map Draw (grid_render dims (cfg_gridColor cfg) (cfg_showGrid cfg))
                          end = map Draw G').
  { destruct (cfg_showGrid cfg) as [[|]|]; [eexists; reflexivity|exists []; reflexivity|eexists; reflexivity]. }
  destruct HG as [G' HG].
  assert (Hlv : match cfg_levels cfg with Some lv => levels_render dims pr lv | None => [] end = []).
  { destruct Hl as [-> | ->]; reflexivity. }
  assert (HE : (if cfg_showEMA cfg
                then match cfg_emaPeriod cfg with
                     | Some (S _ as p) => ema_render dims pr (cfg_colors cfg) p ohlc
                     | _ => []
                     end
                else []) = []).
  { destruct He as [-> | [-> | ->]]; [reflexivity|destruct (cfg_showEMA cfg); reflexivity|
      destruct (cfg_showEMA cfg); reflexivity]. }
  unfold drawChart_layers, vwap_render, overlay_render. rewrite Hv, Hvol, HE, Hlv, HG.
  destruct (calculateVWAP ohlc) as [|p0 ps]; [congruence|].
  cbn [andb]. unfold stroke_dashes. split.
  - cbn [app stroke_dashes_from]. apply stroke_dashes_no_setdash.
    intros c Hc.
    repeat match goal with
    | H : In _ (_ ++ _) |- _ => apply in_app_or in H as [H|H]
    | H : In _ (map Draw _) |- _ => apply in_map_iff in H as [? [<- _]]
    | H : In _ (_ :: _) |- _ => destruct H as [<-|H]
    | H : In _ [] |- _ => destruct H
    end; exact I.
  - rewrite stroke_dashes_length. rewrite !filter_app, !length_app. cbn [filter is_stroke List.length].
    lia.
Qed.

Lemma vwap_dash_persists_witness :
  cfg_showVWAP cfg_vwap_ema_zero = true /\ hasVolumeData [candle_a; candle_b; candle_c] = true /\
  cfg_emaPeriod cfg_vwap_ema_zero = Some 0%nat /\
  (cfg_levels cfg_vwap_ema_zero = None \/ cfg_levels cfg_vwap_ema_zero = Some []) /\
  Forall (fun d => d = [5; 5])
    (stroke_dashes (drawChart_layers clock_same_day cfg_vwap_ema_zero dims_800x600
                      (mkPriceRange 90 120 30) [candle_a; candle_b; candle_c])).
Proof.
  split; [reflexivity|split; [reflexivity|split; [reflexivity|split; [left; reflexivity|]]]].
  exact (proj1 (vwap_dash_persists clock_same_day cfg_vwap_ema_zero dims_800x600
                  (mkPriceRange 90 120 30) [candle_a; candle_b; candle_c]
                  eq_refl eq_refl (or_intror (or_intror eq_refl)) (or_introl eq_refl))).
Defined.

(** Each level is stroked with its own style ([dotted]: [[5, 5]],
    [solid]: no dash), and after at least one level the dash is reset:
    whatever follows is stroked solid. *)
Theorem levels_dash_per_style (dims : ChartDimensions) (pr : PriceRange)
  (lv : list HorizontalLevel) (d : list Q) (r : list CanvasCmd) :
  stroke_dashes_from d (levels_render dims pr lv ++ r)
  = map (fun l => match lineStyle l with Dotted => [5; 5] | Solid => [] end) lv
    ++ stroke_dashes_from (match lv with [] => d | _ => [] end) r.
Proof.
  revert d. induction lv as [|l0 lv IH]; intro d; [reflexivity|].
  unfold levels_render. cbn [map List.concat]. rewrite <- app_assoc.
  unfold level_cmds. cbn [app stroke_dashes_from].
  destruct (llabel l0) as [s|]; [destruct (String.eqb s EmptyString)|];
    cbn [app stroke_dashes_from map]; fold (levels_render dims pr lv); rewrite IH;
    destruct lv; reflexivity.
Qed.

(** The watermark draws its own text once, after setting the global
    alpha to its opacity (a string watermark, or a falsy opacity, gets
    the default [0.3]), and always resets the alpha to [1] after it. *)
Theorem watermark_restores_alpha (width height : Q) (wm : Watermark) :
  exists color font align x y,
    watermark_render width height wm
    = [SetGlobalAlpha (match wm with
                       | WmString _ => 3 # 10
                       | WmConfig c => num_or (wopacity c) (3 # 10)
                       end);
       Draw (SetFillStyle color); Draw (SetFont font); Draw (SetTextAlign align);
       Draw (FillText (match wm with WmString s => s | WmConfig c => wtext c end) x y);
       SetGlobalAlpha 1].
Proof.
  unfold watermark_render. destruct wm as [s|c]; [do 5 eexists; reflexivity|].
  destruct (override (wposition c) WBottomRight); do 5 eexists; reflexivity.
Qed.

(** The positions ['top'] and ['bottom'] have no case of their own in
    the switch: such a watermark is drawn right-aligned at the bottom
    right corner, 20 pixels in. *)
Theorem watermark_top_bottom_drawn_bottom_right (width height : Q) (c : WatermarkConfig) :
  wposition c = Some WTop \/ wposition c = Some WBottom ->
  nth 3 (watermark_render width height (WmConfig c)) (SetGlobalAlpha 0)
    = Draw (SetTextAlign "right") /\
  nth 4 (watermark_render width height (WmConfig c)) (SetGlobalAlpha 0)
    = Draw (FillText (wtext c) (width - 20) (height - 20)).
Proof. unfold watermark_render. intros [E|E]; rewrite E; split; reflexivity. Qed.

Lemma watermark_top_bottom_drawn_bottom_right_witness :
  (wposition (mkWatermark "BTC/USDT" (Some WTop) None None None) = Some WTop \/
   wposition (mkWatermark "BTC/USDT" (Some WTop) None None None) = Some WBottom) /\
  nth 4 (watermark_render 800 600 (WmConfig (mkWatermark "BTC/USDT" (Some WTop) None None None)))
      (SetGlobalAlpha 0)
    = Draw (FillText "BTC/USDT" (800 - 20) (600 - 20)).
Proof.
  split; [left; reflexivity|].
  exact (proj2 (watermark_top_bottom_drawn_bottom_right 800 600
                  (mkWatermark "BTC/USDT" (Some WTop) None None None) (or_introl eq_refl))).
Defined.

(** An opacity of [0] and a font size of [0] are falsy: each one on its
    own falls back to its default, [0.3] for the opacity and [12px] for
    the font, whatever the other field holds. *)
Theorem watermark_zero_defaults (width height : Q) (c : WatermarkConfig) :
  ((wopacity c = None \/ exists v, wopacity c = Some v /\ v == 0) ->
   nth 0 (watermark_render width height (WmConfig c)) (SetGlobalAlpha 1) = SetGlobalAlpha (3 # 10)) /\
  ((wfontSize c = None \/ wfontSize c = Some 0%Z) ->
   nth 2 (watermark_render width height (WmConfig c)) (SetGlobalAlpha 1)
     = Draw (SetFont "12px Arial")).
Proof.
  unfold watermark_render. split.
  - intro Ho.
    assert (Eo : num_or (wopacity c) (3 # 10) = 3 # 10).
    { destruct Ho as [-> | [v [-> Hv]]]; [reflexivity|]. unfold num_or, truthy_num.
      apply Qeq_bool_iff in Hv. rewrite Hv. reflexivity. }
    rewrite Eo. destruct (override (wposition c) WBottomRight); reflexivity.
  - intro Hf.
    assert (Ef : match wfontSize c with
                 | Some z => if Z.eqb z 0 then 12%Z else z
                 | None => 12%Z
                 end = 12%Z).
    { destruct Hf as [-> | ->]; reflexivity. }
    rewrite Ef. destruct (override (wposition c) WBottomRight); reflexivity.
Qed.

Lemma watermark_zero_defaults_witness :
  (exists v, wopacity (mkWatermark "BTC" None None (Some 20%Z) (Some 0)) = Some v /\ v == 0) /\
  nth 0 (watermark_render 800 600 (WmConfig (mkWatermark "BTC" None None (Some 20%Z) (Some 0))))
      (SetGlobalAlpha 1) = SetGlobalAlpha (3 # 10) /\
  nth 2 (watermark_render 800 600 (WmConfig (mkWatermark "BTC" None None (Some 20%Z) (Some 0))))
      (SetGlobalAlpha 1) = Draw (SetFont "20px Arial").
Proof.
  assert (H1 : exists v, wopacity (mkWatermark "BTC" None None (Some 20%Z) (Some 0)) = Some v /\ v == 0)
    by (exists 0; split; reflexivity).
  split; [exact H1|split; [|vm_compute; reflexivity]].
  exact (proj1 (watermark_zero_defaults 800 600 _) (or_intror H1)).
Defined.

(* ------------------------------------------------------------------ *)
(** ** Comparison layout and margins *)

Lemma num_or_pos (v d : Q) : 0 < v -> num_or (Some v) d = v.
Proof.
  intro H. unfold num_or, truthy_num. destruct (Qeq_bool v 0) eqn:E; [|reflexivity].
  apply Qeq_bool_eq in E. lra.
Qed.

(** A chart of a comparison without margins of its own gets the default
    margins scaled to its cell, but never below [20/15/20/15] pixels; a
    cell wider than [40] and higher than [42] pixels always leaves a plot
    of positive size. *)
Theorem chart_in_position_plot_positive (pos : Position) :
  40 < pw pos -> 42 < ph pos ->
  0 < chartWidth (chart_in_position_dims pos None) /\
  0 < chartHeight (chart_in_position_dims pos None).
Proof.
  intros Hw Hh. unfold chart_in_position_dims, drawChart_dims, adjustMargins.
  cbn [override mtop mbottom mleft mright default_margin chartWidth chartHeight].
  change (num_or (Some 60) 60) with 60. change (num_or (Some 40) 40) with 40.
  set (s := Qmin (pw pos / 800) (ph pos / 600)).
  assert (Hs1 : s <= pw pos / 800) by apply Q.le_min_l.
  assert (Hs2 : s <= ph pos / 600) by apply Q.le_min_r.
  assert (Hs0 : 0 <= s).
  { unfold s. apply Q.min_glb; apply Qle_shift_div_l; try reflexivity; lra. }
  clearbody s.
  rewrite !num_or_pos by (eapply Qlt_le_trans; [|apply Q.le_max_r]; reflexivity).
  qdiv_lits. elim_minmax; split; lra.
Qed.

Lemma chart_in_position_plot_positive_witness :
  40 < pw (mkPos 0 0 395 300) /\ 42 < ph (mkPos 0 0 395 300) /\
  0 < chartWidth (chart_in_position_dims (mkPos 0 0 395 300) None).
Proof.
  assert (H1 : 40 < pw (mkPos 0 0 395 300)) by reflexivity.
  assert (H2 : 42 < ph (mkPos 0 0 395 300)) by reflexivity.
  split; [exact H1|split; [exact H2|]].
  exact (proj1 (chart_in_position_plot_positive _ H1 H2)).
Defined.

(** A grid of two columns holding two charts: the cells sit side by
    side on one row of full height, separated by the gap, and together
    span the whole width. *)
Theorem grid_two_columns_tile (W H : Q) (gap : option Q) :
  exists p0 p1,
    addCharts (mkLayout Grid (Some 2) gap) W H 2 [] = [p0; p1] /\
    px p0 == 0 /\ px p1 == pw p0 + num_or gap 10 /\ px p1 + pw p1 == W /\
    py p0 == 0 /\ py p1 == 0 /\ ph p0 == H /\ ph p1 == H.
Proof.
  cbn [addCharts addChart calculatePosition List.length ltype lcolumns lgap app Nat.min Nat.max].
  eexists _, _. split; [reflexivity|]. cbn [px py pw ph].
  change (Qmin (num_or (Some 2) 2) 2) with 2.
  change (inject_Z (Qfloor (inject_nat 0 / 2))) with 0.
  change (inject_Z (Qfloor (inject_nat 1 / 2))) with 0.
  change (inject_Z (Qceiling (inject_nat 1 / 2))) with 1.
  change (inject_Z (Qceiling (inject_nat 2 / 2))) with 1.
  change (inject_nat 0) with 0. change (inject_nat 1) with 1.
  set (g := num_or gap 10). qdiv_lits. repeat split; lra.
Qed.

(** Positions are computed when a chart is added, from the number of
    charts so far, and never revised: in a one-column grid the first
    chart keeps the full height while the second is placed in the lower
    half, so with a gap smaller than the height the two cells overlap. *)
Theorem grid_one_column_overlap (W H : Q) (gap : option Q) :
  num_or gap 10 < H ->
  exists p0 p1,
    addCharts (mkLayout Grid (Some 1) gap) W H 2 [] = [p0; p1] /\
    py p0 == 0 /\ ph p0 == H /\ px p0 == 0 /\ px p1 == 0 /\
    py p1 == (H + num_or gap 10) / 2 /\ py p1 < py p0 + ph p0.
Proof.
  intro Hg.
  cbn [addCharts addChart calculatePosition List.length ltype lcolumns lgap app Nat.min Nat.max].
  eexists _, _. split; [reflexivity|]. cbn [px py pw ph].
  change (Qmin (num_or (Some 1) 2) 2) with 1.
  change (inject_Z (Qfloor (inject_nat 0 / 1))) with 0.
  change (inject_Z (Qfloor (inject_nat 1 / 1))) with 1.
  change (inject_Z (Qceiling (inject_nat 1 / 1))) with 1.
  change (inject_Z (Qceiling (inject_nat 2 / 1))) with 2.
  change (inject_nat 0) with 0. change (inject_nat 1) with 1.
  set (g := num_or gap 10) in *. qdiv_lits. repeat split; lra.
Qed.

Lemma grid_one_column_overlap_witness :
  num_or (Some 15) 10 < 600 /\
  exists p0 p1,
    addCharts (mkLayout Grid (Some 1) (Some 15)) 800 600 2 [] = [p0; p1] /\
    py p1 < py p0 + ph p0.
Proof.
  assert (H : num_or (Some 15) 10 < 600) by reflexivity.
  split; [exact H|].
  destruct (grid_one_column_overlap 800 600 (Some 15) H) as (p0 & p1 & E & _ & _ & _ & _ & _ & Hlt).
  exists p0, p1. split; [exact E|exact Hlt].
Defined.

(* ------------------------------------------------------------------ *)
(** ** Which charts the comparison service adds *)

Lemma map_nth_seq (l : list string) : forall m, (m <= List.length l)%nat ->
  map (fun i => nth i l EmptyString) (seq 0 m) = firstn m l.
Proof.
  induction l as [|a l IH]; intros m Hm.
  - destruct m; [reflexivity|simpl in Hm; lia].
  - destruct m as [|m]; [reflexivity|]. cbn [seq map firstn nth].
    rewrite <- seq_shift, map_map. cbn [nth]. f_equal. apply IH. simpl in Hm; lia.
Qed.

Lemma fold_add_charts {A : Type} (h : A -> string) (p : string -> bool)
  (f : string -> string * option string) (l : list A) : forall acc,
  fold_left (fun charts x => if p (h x) then charts ++ [f (h x)] else charts) l acc
  = acc ++ map f (filter p (map h l)).
Proof.
  induction l as [|x l IH]; intro acc; cbn [fold_left map filter]; [now rewrite app_nil_r|].
  destruct (p (h x)); rewrite IH; [now rewrite <- app_assoc|reflexivity].
Qed.

(** The charts the service adds: with a non-empty list of timeframes, the
    first symbol on each of the first [symbols.length] timeframes;
    otherwise each symbol on its default timeframe; in both cases in
    order, skipping those whose data could not be produced. *)
Theorem addChartsToRenderer_selection (fetchOk : ChartFetch)
  (timeframes : option (list string)) (symbols : list string) :
  addChartsToRenderer fetchOk timeframes symbols =
  match timeframes with
  | Some ((_ :: _) as tfs) =>
      map (fun t => (hd EmptyString symbols, Some t))
        (filter (fun t => fetchOk (hd EmptyString symbols) (Some t))
           (firstn (List.length symbols) tfs))
  | _ => map (fun s => (s, None)) (filter (fun s => fetchOk s None) symbols)
  end.
Proof.
  assert (Hs : addSymbolCharts fetchOk symbols
               = map (fun s => (s, None)) (filter (fun s => fetchOk s None) symbols)).
  { unfold addSymbolCharts.
    rewrite (fold_add_charts (fun s => s) (fun s => fetchOk s None) (fun s => (s, None))).
    now rewrite map_id. }
  unfold addChartsToRenderer. destruct timeframes as [[|t ts]|]; try exact Hs.
  unfold addTimeframeCharts.
  rewrite (fold_add_charts (fun i => nth i (t :: ts) EmptyString)
             (fun tf => fetchOk (hd EmptyString symbols) (Some tf))
             (fun tf => (hd EmptyString symbols, Some tf))).
  rewrite map_nth_seq by lia. cbn [app]. f_equal. f_equal.
  destruct (Nat.le_ge_cases (List.length symbols) (List.length (t :: ts))) as [Hle|Hge].
  - now rewrite Nat.min_l by exact Hle.
  - rewrite Nat.min_r by exact Hge. rewrite firstn_all, firstn_all2 by exact Hge. reflexivity.
Qed.

(** However many charts the service can fetch, it adds at most one per
    symbol it is configured with. *)
Lemma addChartsToRenderer_length (fetchOk : ChartFetch)
  (timeframes : option (list string)) (symbols : list string) :
  (List.length (addChartsToRenderer fetchOk timeframes symbols) <= List.length symbols)%nat.
Proof.
  unfold addChartsToRenderer. destruct timeframes as [[|t ts]|].
  2: { unfold addTimeframeCharts.
       rewrite (fold_add_charts (fun i => nth i (t :: ts) EmptyString)
                  (fun tf => fetchOk (hd EmptyString symbols) (Some tf))
                  (fun tf => (hd EmptyString symbols, Some tf))).
       rewrite map_nth_seq by lia. cbn [app]. rewrite length_map.
       etransitivity; [apply filter_length_le|]. rewrite length_firstn. lia. }
  all: unfold addSymbolCharts;
       rewrite (fold_add_charts (fun s => s) (fun s => fetchOk s None) (fun s => (s, None)));
       cbn [app]; rewrite length_map, map_id; apply filter_length_le.
Qed.

(** [timeframeComparison] builds its configuration with [symbols:
    [symbol]] and spreads [config] last: it draws at most one chart per
    symbol of the resulting list, that is at most one chart, however
    many timeframes are given, unless [config] sets [symbols], in which
    case that list replaces [[symbol]]. *)
Theorem timeframeComparison_charts_per_symbol (fetchOk : ChartFetch) (symbol : string)
  (timeframes : list string) (outputPath : string) (config : PartialServiceConfig) :
  (List.length (service_charts fetchOk (timeframeComparison symbol timeframes outputPath config))
   <= List.length (override (p_symbols config) [symbol]))%nat.
Proof.
  unfold service_charts, timeframeComparison. cbn [svc_timeframes svc_symbols].
  apply addChartsToRenderer_length.
Qed.

(* ------------------------------------------------------------------ *)
(** ** Renko bricks *)

Lemma renko_chain_snoc (bs p : Q) (l : list RenkoBlock) (b : RenkoBlock) :
  renko_chain bs p (l ++ [b]) <-> renko_chain bs p l /\ renko_chain bs (chain_end p l) [b].
Proof.
  revert p. induction l as [|b0 l IH]; intro p; cbn [app renko_chain].
  - unfold chain_end; cbn [fold_left]. tauto.
  - unfold chain_end in *. cbn [fold_left]. rewrite IH. cbn [renko_chain]. tauto.
Qed.

Lemma push_blocks_chain (bs p : Q) (n : nat) (t dir : Z) :
  (dir = 1%Z \/ dir = (-1)%Z) ->
  forall renko cur, renko_chain bs p renko -> cur = chain_end p renko ->
  renko_chain bs p (fst (push_blocks n t dir bs (renko, cur))) /\
  snd (push_blocks n t dir bs (renko, cur)) = chain_end p (fst (push_blocks n t dir bs (renko, cur))).
Proof.
  intro Hd. induction n as [|n IH]; intros renko cur Hc He; [split; assumption|].
  cbn [push_blocks]. apply IH.
  - apply renko_chain_snoc. split; [exact Hc|].
    cbn [renko_chain ropen rclose rhigh rlow direction]. repeat split; auto.
  - unfold chain_end. rewrite fold_left_app. reflexivity.
Qed.

Lemma renko_fold_chain (bs p : Q) (cs : list candle) : forall renko cur,
  renko_chain bs p renko -> cur = chain_end p renko ->
  renko_chain bs p (fst (fold_left (renko_iter bs) cs (renko, cur))).
Proof.
  induction cs as [|c cs IH]; intros renko cur Hc He; [exact Hc|].
  cbn [fold_left]. unfold renko_iter at 2. cbv beta iota zeta.
  destruct (Qle_bool bs (Qabs ((close c - cur) / cur))); [|apply IH; assumption].
  assert (Hd : (if Qle_bool (close c - cur) 0 then (-1)%Z else 1%Z) = 1%Z \/
               (if Qle_bool (close c - cur) 0 then (-1)%Z else 1%Z) = (-1)%Z)
    by (destruct (Qle_bool (close c - cur) 0); [right|left]; reflexivity).
  destruct (push_blocks_chain bs p (Z.to_nat (Qfloor (Qabs ((close c - cur) / cur) / bs)))
              (time c) _ Hd renko cur Hc He) as [H1 H2].
  destruct (push_blocks _ _ _ _ _) as [r' c'] eqn:E. cbn [fst snd] in H1, H2.
  apply IH; assumption.
Qed.

(** The Renko bricks form a chain from the first close: each brick opens
    where the previous one closed (the first at [ohlc[0].close]), moves
    by exactly one brick, [brickSize] times its opening price, up or
    down, and spans its open and close. *)
Theorem calculateRenko_chain (c0 : candle) (cs : list candle) (brickSize : Q) :
  exists blocks, calculateRenko (c0 :: cs) brickSize = Some blocks /\
                 renko_chain brickSize (close c0) blocks.
Proof. eexists; split; [reflexivity|]. apply renko_fold_chain; [exact I|reflexivity]. Qed.
